(** * Affixio core: fetch layer, rule engine and credential protocol

    A shallow embedding of [backup_original/logic/connectors.py],
    [backup_original/logic/rules.py], [backup_original/logic/models.py],
    [backup_original/core/security.py], [backup_original/core/stateless_engine.py]
    and [backup_original/api/endpoints.py], followed by the properties that
    the design document states about them.

    Python dictionaries whose iteration order is irrelevant are [gmap]s;
    those that are iterated (the connector table, the security answers) are
    association lists in insertion order.  Python integers are [Z].
    Exceptions are explicit result constructors.  Wall-clock instants are
    microseconds in [Z] (the resolution of [datetime]). *)

From Stdlib Require Import ZArith String Ascii List Bool Lia.
From stdpp Require Import gmap strings list fin_maps pretty.

Set Warnings "-register-all".

Local Open Scope string_scope.
Local Open Scope Z_scope.

(** ** Python values *)

Module Py.

(** The JSON-shaped values that flow through fact contexts, rule conditions
    and token payloads.  Floats and nested JSON objects are not represented. *)
Inductive pyval : Type :=
| VNone
| VBool (b : bool)
| VInt (n : Z)
| VStr (s : string)
| VList (l : list pyval).

(** [bool] is a subclass of [int]: [True == 1], [True < 2]. *)
Definition as_int (v : pyval) : option Z :=
  match v with
  | VBool b => Some (if b then 1 else 0)
  | VInt n => Some n
  | _ => None
  end.

(** [a == b]; never raises on these values. *)
Fixpoint py_eq (a b : pyval) {struct a} : bool :=
  match a with
  | VNone => match b with VNone => true | _ => false end
  | VBool x =>
      match as_int b with Some y => (if x then 1 else 0) =? y | None => false end
  | VInt x =>
      match as_int b with Some y => x =? y | None => false end
  | VStr s => match b with VStr t => String.eqb s t | _ => false end
  | VList l =>
      match b with
      | VList m =>
          (fix go (l m : list pyval) {struct l} : bool :=
             match l, m with
             | [], [] => true
             | x :: l', y :: m' => py_eq x y && go l' m'
             | _, _ => false
             end) l m
      | _ => false
      end
  end.

Inductive ord_op := OpLt | OpLe | OpGt | OpGe.

Definition ord_Z (op : ord_op) (x y : Z) : bool :=
  match op with
  | OpLt => x <? y
  | OpLe => x <=? y
  | OpGt => y <? x
  | OpGe => y <=? x
  end.

Definition ord_str (op : ord_op) (s t : string) : bool :=
  match op with
  | OpLt => String.ltb s t
  | OpLe => String.leb s t
  | OpGt => String.ltb t s
  | OpGe => String.leb t s
  end.

(** A value or a raised exception with its message ([str(e)]). *)
Inductive raises (A : Type) : Type :=
| Val (a : A)
| Exc (msg : string).
Arguments Val {A} a.
Arguments Exc {A} msg.

Definition type_name (v : pyval) : string :=
  match v with
  | VNone => "NoneType"
  | VBool _ => "bool"
  | VInt _ => "int"
  | VStr _ => "str"
  | VList _ => "list"
  end.

Definition op_symbol (op : ord_op) : string :=
  match op with
  | OpLt => "<"
  | OpLe => "<="
  | OpGt => ">"
  | OpGe => ">="
  end.

Definition not_supported (op : ord_op) (a b : pyval) : raises bool :=
  Exc ("'" +:+ op_symbol op +:+ "' not supported between instances of '"
       +:+ type_name a +:+ "' and '" +:+ type_name b +:+ "'").

(** [a < b], [a <= b], [a > b], [a >= b], or the [TypeError] they raise.
    Sequences compare on the first position whose items are not [==],
    otherwise on their lengths. *)
Fixpoint py_ord (op : ord_op) (a b : pyval) {struct a} : raises bool :=
  match a with
  | VNone => not_supported op a b
  | VBool x =>
      match as_int b with
      | Some y => Val (ord_Z op (if x then 1 else 0) y)
      | None => not_supported op a b
      end
  | VInt x =>
      match as_int b with
      | Some y => Val (ord_Z op x y)
      | None => not_supported op a b
      end
  | VStr s =>
      match b with
      | VStr t => Val (ord_str op s t)
      | _ => not_supported op a b
      end
  | VList l =>
      match b with
      | VList m =>
          (fix go (l m : list pyval) {struct l} : raises bool :=
             match l, m with
             | x :: l', y :: m' =>
                 if py_eq x y then go l' m' else py_ord op x y
             | _, _ =>
                 Val (ord_Z op (Z.of_nat (length l)) (Z.of_nat (length m)))
             end) l m
      | _ => not_supported op a b
      end
  end.

Definition is_substring (needle hay : string) : bool :=
  match String.index 0 needle hay with
  | Some _ => true
  | None => match needle with EmptyString => true | _ => false end
  end.

(** [x in c] for a list or a string [c] (the callers test the type of [c]
    first), or the [TypeError] it raises. *)
Definition py_in (x c : pyval) : raises bool :=
  match c with
  | VList l => Val (existsb (py_eq x) l)
  | VStr s =>
      match x with
      | VStr t => Val (is_substring t s)
      | _ => Exc ("'in <string>' requires string as left operand, not "
                  +:+ type_name x)
      end
  | _ => Exc ("argument of type '" +:+ type_name c +:+ "' is not iterable")
  end.

Definition str_bool (b : bool) : string := if b then "True" else "False".

(** [repr] of a string.  The quote is the single one unless the string
    holds a single quote and no double one; the quote in use and the
    backslash are escaped, tab, newline and carriage return are written
    [\t], [\n], [\r], and the other ASCII control characters [\xNN].  Bytes
    above 127 are copied, as the printable characters they encode are. *)
Definition single_quote : ascii := "039"%char.
Definition double_quote : ascii := "034"%char.
Definition backslash : ascii := "092"%char.

Fixpoint contains_char (c : ascii) (s : string) : bool :=
  match s with
  | EmptyString => false
  | String c' s' => Ascii.eqb c c' || contains_char c s'
  end.

Definition hex_digit (n : N) : ascii :=
  if (n <? 10)%N then ascii_of_N (48 + n) else ascii_of_N (87 + n).

Definition escape_char (quote c : ascii) : string :=
  let n := N_of_ascii c in
  if Ascii.eqb c quote || Ascii.eqb c backslash
  then String backslash (String c EmptyString)
  else if (n =? 9)%N then String backslash "t"
  else if (n =? 10)%N then String backslash "n"
  else if (n =? 13)%N then String backslash "r"
  else if (n <? 32)%N || (n =? 127)%N
  then String backslash
         (String "x" (String (hex_digit (n / 16)) (String (hex_digit (n mod 16))
                                                     EmptyString)))
  else String c EmptyString.

Fixpoint escape (quote : ascii) (s : string) : string :=
  match s with
  | EmptyString => EmptyString
  | String c s' => escape_char quote c +:+ escape quote s'
  end.

Definition str_repr (s : string) : string :=
  let quote :=
    if contains_char single_quote s && negb (contains_char double_quote s)
    then double_quote else single_quote in
  String quote (escape quote s +:+ String quote EmptyString).

(** [repr] of a value, as a list display shows its items. *)
Fixpoint py_repr (v : pyval) : string :=
  match v with
  | VNone => "None"
  | VBool b => str_bool b
  | VInt n => pretty n
  | VStr s => str_repr s
  | VList l =>
      "[" +:+
      (fix go (l : list pyval) : string :=
         match l with
         | [] => ""
         | [x] => py_repr x
         | x :: l' => py_repr x +:+ ", " +:+ go l'
         end) l
      +:+ "]"
  end.

(** [str(v)], as used by f-strings. *)
Definition py_str (v : pyval) : string :=
  match v with
  | VStr s => s
  | _ => py_repr v
  end.

(** [sep.join(parts)] *)
Fixpoint join (sep : string) (parts : list string) : string :=
  match parts with
  | [] => ""
  | [p] => p
  | p :: rest => p +:+ sep +:+ join sep rest
  end.

(** What [str.strip()], [str.lower()] and [str.upper()] do on ASCII text.
    The library functions themselves work on code points and know Unicode
    (other white space, letters outside A-Z, case mappings that change the
    length); they are part of the interface declared further down.  Strings
    are held as their UTF-8 bytes. *)
Definition is_ascii_char (c : ascii) : bool := (N_of_ascii c <? 128)%N.

Fixpoint is_ascii (s : string) : bool :=
  match s with
  | EmptyString => true
  | String c s' => is_ascii_char c && is_ascii s'
  end.

Definition is_space (c : ascii) : bool :=
  let n := N_of_ascii c in
  ((9 <=? n) && (n <=? 13) || (28 <=? n) && (n <=? 32))%N.

Fixpoint lstrip (s : string) : string :=
  match s with
  | String c s' => if is_space c then lstrip s' else s
  | EmptyString => EmptyString
  end.

Fixpoint rstrip (s : string) : string :=
  match s with
  | EmptyString => EmptyString
  | String c s' =>
      match rstrip s' with
      | EmptyString => if is_space c then EmptyString else String c EmptyString
      | r => String c r
      end
  end.

Definition ascii_strip (s : string) : string := rstrip (lstrip s).

Definition lower_ascii (c : ascii) : ascii :=
  let n := N_of_ascii c in
  if ((65 <=? n) && (n <=? 90))%N then ascii_of_N (n + 32) else c.

Fixpoint ascii_lower (s : string) : string :=
  match s with
  | EmptyString => EmptyString
  | String c s' => String (lower_ascii c) (ascii_lower s')
  end.

(** Truthiness of a value. *)
Definition py_truthy (v : pyval) : bool :=
  match v with
  | VNone => false
  | VBool b => b
  | VInt n => negb (n =? 0)
  | VStr EmptyString => false
  | VStr _ => true
  | VList [] => false
  | VList _ => true
  end.

(** Truthiness of a string: [not s] holds exactly for the empty string. *)
Definition str_truthy (s : string) : bool :=
  match s with EmptyString => false | _ => true end.

(** [a or b] on an optional string: [None] and the empty string fall
    through to [b]. *)
Definition str_or (a : option string) (b : string) : string :=
  match a with
  | Some s => if str_truthy s then s else b
  | None => b
  end.

Definition upper_ascii (c : ascii) : ascii :=
  let n := N_of_ascii c in
  if ((97 <=? n) && (n <=? 122))%N then ascii_of_N (n - 32) else c.

Fixpoint ascii_upper (s : string) : string :=
  match s with
  | EmptyString => EmptyString
  | String c s' => String (upper_ascii c) (ascii_upper s')
  end.

Definition is_lower_letter (c : ascii) : bool :=
  let n := N_of_ascii c in ((97 <=? n) && (n <=? 122))%N.

Fixpoint has_lower_letter (s : string) : bool :=
  match s with
  | EmptyString => false
  | String c s' => is_lower_letter c || has_lower_letter s'
  end.

(** The pairs of values on which the ordering operators are defined:
    two numbers, two strings or two lists. *)
Definition same_kind (a b : pyval) : bool :=
  match a, b with
  | (VBool _ | VInt _), (VBool _ | VInt _) => true
  | VStr _, VStr _ => true
  | VList _, VList _ => true
  | _, _ => false
  end.

End Py.
Export Py.

Abbreviation dict := (gmap string pyval).

(** A dictionary display [{k1: v1, k2: v2, ...}]: the entries are written
    in order, so a key that occurs twice keeps its last value. *)
Definition dict_literal (items : list (string * pyval)) : dict :=
  fold_left (fun d kv => <[fst kv := snd kv]> d) items ∅.

(** [d.get(k)]: [None] for a missing key. *)
Definition dict_get (d : dict) (k : string) : pyval := default VNone (d !! k).

(** A token string: either the compact serialisation of a signed claim set
    (header algorithm, claims, signature) or a string that is no such thing. *)
Inductive jwt :=
| NotJWT (s : string)
| JWS (alg : string) (claims : dict) (signature : string).

(** ** Library functions the program calls

    The standard-library and third-party functions the program relies on are
    an interface; the program is modelled over any implementation of it. *)
Class Platform := {
  (** [hashlib.sha256(s.encode()).hexdigest()] *)
  sha256_hexdigest : string -> string;
  (** [hashlib.sha512(s.encode()).hexdigest()] *)
  sha512_hexdigest : string -> string;
  (** the signature PyJWT computes for an algorithm, a key and a claim set *)
  jws_signature : string -> string -> dict -> string;
  (** [template.format(secure_code=code)]; [None] when it raises *)
  str_format : string -> string -> option string;
  (** [isoformat()] of the naive datetime whose [timestamp()] is the given
      number of seconds *)
  isoformat : Z -> string;
  (** [int(s)] for a string: the integer it spells; [None] when it raises
      [ValueError] *)
  int_of_str : string -> option Z;
  (** the base64 PNG that the [qrcode] library renders for a token *)
  qr_png_base64 : jwt -> string;
  (** [s.strip()], [s.lower()], [s.upper()] and [len(s)] *)
  strip : string -> string;
  lower : string -> string;
  upper : string -> string;
  len : string -> nat;
  (** on ASCII text they are the functions given above, and [lower] never
      empties a string *)
  strip_on_ascii : forall s, is_ascii s = true -> strip s = ascii_strip s;
  lower_on_ascii : forall s, is_ascii s = true -> lower s = ascii_lower s;
  upper_on_ascii : forall s, is_ascii s = true -> upper s = ascii_upper s;
  len_on_ascii : forall s, is_ascii s = true -> len s = String.length s;
  lower_nonempty : forall s, lower s = "" -> s = ""
}.

(** ** Circuit breaker ([logic/connectors.py], class [CircuitBreaker]) *)

Module Breaker.

Record CircuitBreaker := mkCircuitBreaker {
  failure_threshold : Z;
  timeout : Z;                       (* seconds *)
  failure_count : Z;
  last_failure_time : option Z;      (* microseconds; [None] until a failure *)
  state : string
}.

(** [__init__(failure_threshold=5, timeout=60)] *)
Definition init (failure_threshold timeout : Z) : CircuitBreaker :=
  {| failure_threshold := failure_threshold;
     timeout := timeout;
     failure_count := 0;
     last_failure_time := None;
     state := "CLOSED" |}.

Definition default : CircuitBreaker := init 5 60.

Definition set_state (s : string) (cb : CircuitBreaker) : CircuitBreaker :=
  {| failure_threshold := failure_threshold cb;
     timeout := timeout cb;
     failure_count := failure_count cb;
     last_failure_time := last_failure_time cb;
     state := s |}.

(** [record_failure]; [now] is the reading of [datetime.now()]. *)
Definition record_failure (now : Z) (cb : CircuitBreaker) : CircuitBreaker :=
  let cb1 :=
    {| failure_threshold := failure_threshold cb;
       timeout := timeout cb;
       failure_count := failure_count cb + 1;
       last_failure_time := Some now;
       state := state cb |} in
  if failure_threshold cb1 <=? failure_count cb1
  then set_state "OPEN" cb1
  else cb1.

Definition record_success (cb : CircuitBreaker) : CircuitBreaker :=
  {| failure_threshold := failure_threshold cb;
     timeout := timeout cb;
     failure_count := 0;
     last_failure_time := last_failure_time cb;
     state := "CLOSED" |}.

(** [datetime.now() - last > timedelta(seconds=timeout)] *)
Definition timeout_elapsed (now last timeout : Z) : bool :=
  timeout * 1000000 <? now - last.

(** [can_execute]: the answer and the breaker after the call. *)
Definition can_execute (now : Z) (cb : CircuitBreaker) : bool * CircuitBreaker :=
  if String.eqb (state cb) "CLOSED" then (true, cb)
  else if String.eqb (state cb) "OPEN" then
    match last_failure_time cb with
    | Some last =>
        if timeout_elapsed now last (timeout cb)
        then (true, set_state "HALF_OPEN" cb)
        else (false, cb)
    | None => (false, cb)
    end
  else (true, cb).

(** The three methods as calls, and the breakers a fresh one can become. *)
Inductive call :=
| RecordFailure (now : Z)
| RecordSuccess
| CanExecute (now : Z).

Definition apply_call (c : call) (cb : CircuitBreaker) : CircuitBreaker :=
  match c with
  | RecordFailure now => record_failure now cb
  | RecordSuccess => record_success cb
  | CanExecute now => snd (can_execute now cb)
  end.

Definition run (calls : list call) (cb : CircuitBreaker) : CircuitBreaker :=
  fold_left (fun cb c => apply_call c cb) calls cb.

Inductive reachable (threshold tmo : Z) : CircuitBreaker -> Prop :=
| reach_init : reachable threshold tmo (init threshold tmo)
| reach_step cb c :
    reachable threshold tmo cb -> reachable threshold tmo (apply_call c cb).

(** What every breaker obtained from a fresh one satisfies. *)
Definition breaker_inv (threshold : Z) (cb : CircuitBreaker) : Prop :=
  failure_threshold cb = threshold
  /\ (state cb = "CLOSED" \/ state cb = "OPEN" \/ state cb = "HALF_OPEN")
  /\ (state cb <> "CLOSED" ->
      failure_threshold cb <= failure_count cb
      /\ is_Some (last_failure_time cb)).

End Breaker.

(** ** Source connectors ([logic/connectors.py]) *)

Module Connectors.
Import Breaker.

Record EndpointConfig := mkEndpointConfig {
  url : string;
  method : string;
  auth_type : string;
  auth_token : option string;
  timeout : Z;
  retries : Z
}.

(** The HTTP client handle is not part of the state that matters here. *)
Record DataConnector := mkDataConnector {
  config : EndpointConfig;
  circuit_breaker : CircuitBreaker
}.

(** [DataConnector.__init__] *)
Definition new_connector (cfg : EndpointConfig) : DataConnector :=
  {| config := cfg; circuit_breaker := Breaker.default |}.

Record http_request := mkRequest {
  req_method : string;
  req_url : string;
  req_headers : list (string * string)
}.

(** An element of a JSON array as [dict.update] meets it: a two-element
    array whose first element is a string, or a scalar that is no sequence. *)
Inductive json_item :=
| ItemPair (k : string) (v : pyval)
| ItemNull
| ItemBool (b : bool)
| ItemInt (n : Z).

(** What [response.json()] returns.  [_make_request] hands it on unchecked,
    whatever its return annotation says: an object, an array, a string,
    [null], a boolean or a number. *)
Inductive json :=
| JObject (d : dict)
| JArray (items : list json_item)
| JStr (s : string)
| JNull
| JBool (b : bool)
| JInt (n : Z).

(** What one [client.request] attempt does inside the [try] block. *)
Inductive http_result :=
| HttpOk (body : json)          (* 2xx and a body that decodes *)
| HttpError (msg : string)      (* the request or [raise_for_status] raised *)
| HttpBadBody (msg : string).   (* 2xx, then [response.json()] raised *)

(** The outside world as one source shows it during a fetch: the clock when
    the breaker is consulted, and for each attempt number the clock when the
    attempt ends together with what it produced. *)
Record Source := mkSource {
  call_time : Z;
  respond : http_request -> nat -> Z * http_result
}.

Inductive outcome :=
| Raised (msg : string)
| Returned (v : option json).     (* [Returned None]: the loop fell through *)

Definition auth_headers (cfg : EndpointConfig) : list (string * string) :=
  match auth_token cfg with
  | Some tok =>
      if String.eqb (auth_type cfg) "api_key" && str_truthy tok
      then [("X-API-Key", tok)]
      else if String.eqb (auth_type cfg) "bearer" && str_truthy tok
      then [("Authorization", "Bearer " +:+ tok)]
      else []
  | None => []
  end.

(** The retry loop [for attempt in range(self.config.retries)].  The last
    component counts the network attempts made. *)
Fixpoint attempts (cfg : EndpointConfig) (req : http_request) (src : Source)
    (range : list Z) (cb : CircuitBreaker) (made : nat)
    : outcome * CircuitBreaker * nat :=
  match range with
  | [] => (Returned None, cb, made)
  | attempt :: range' =>
      let '(t, r) := respond src req (Z.to_nat attempt) in
      let failed (cb0 : CircuitBreaker) (msg : string) :=
        let cb' := record_failure t cb0 in
        if attempt =? retries cfg - 1
        then (Raised ("All " +:+ pretty (retries cfg) +:+ " attempts failed: " +:+ msg),
              cb', S made)
        else attempts cfg req src range' cb' (S made) in
      match r with
      | HttpOk body => (Returned (Some body), record_success cb, S made)
      | HttpError msg => failed cb msg
      | HttpBadBody msg => failed (record_success cb) msg
      end
  end.

(** [DataConnector._make_request(url, method)] *)
Definition _make_request (c : DataConnector) (src : Source) (u m : string)
    : outcome * DataConnector * nat :=
  let '(ok, cb) := can_execute (call_time src) (circuit_breaker c) in
  if negb ok
  then (Raised "Circuit breaker is open",
        {| config := config c; circuit_breaker := cb |}, O)
  else
    let req := {| req_method := m; req_url := u;
                  req_headers := auth_headers (config c) |} in
    let '(out, cb', made) :=
      attempts (config c) req src (seqZ 0 (retries (config c))) cb O in
    (out, {| config := config c; circuit_breaker := cb' |}, made).

(** [dict.update] given a sequence: the elements are written one by one, and
    the first that is not a pair raises, leaving the earlier ones written.
    The result is the dictionary afterwards and the message of the exception,
    if one was raised. *)
Fixpoint update_from_items (d : dict) (items : list json_item) (i : nat)
    : dict * option string :=
  match items with
  | [] => (d, None)
  | ItemPair k v :: rest => update_from_items (<[k := v]> d) rest (S i)
  | _ :: _ =>
      (d, Some ("cannot convert dictionary update sequence element #"
                +:+ pretty i +:+ " to a sequence"))
  end.

(** [d.update(data)] for what [_make_request] returned.  The characters of a
    string are sequences of length one. *)
Definition dict_update (d : dict) (data : option json) : dict * option string :=
  match data with
  | Some (JObject o) => (o ∪ d, None)
  | Some (JArray items) => update_from_items d items 0
  | Some (JStr s) =>
      if str_truthy s
      then (d, Some "dictionary update sequence element #0 has length 1; 2 is required")
      else (d, None)
  | Some JNull | None => (d, Some "'NoneType' object is not iterable")
  | Some (JBool _) => (d, Some "'bool' object is not iterable")
  | Some (JInt _) => (d, Some "'int' object is not iterable")
  end.

(** How an iteration of the fetch loop ends: in the [try] body, logging
    "Successfully fetched", or in the [except] arm, logging "Failed to
    fetch". *)
Inductive fetch_status := Fetched | Failed.

Section Manager.
Context `{Platform}.

(** The [try] body of the loop of [fetch_secure_data], run on the dictionary
    built so far. *)
Definition try_fetch (secure_code : string) (world : string -> Source)
    (secure_data : dict) (entry : string * DataConnector)
    : fetch_status * dict * (string * DataConnector) * nat :=
  let '(name, c) := entry in
  match str_format (url (config c)) secure_code with
  | None => (Failed, secure_data, entry, O)
  | Some u =>
      match _make_request c (world name) u (method (config c)) with
      | (Returned data, c', made) =>
          match dict_update secure_data data with
          | (secure_data', None) => (Fetched, secure_data', (name, c'), made)
          | (secure_data', Some _) => (Failed, secure_data', (name, c'), made)
          end
      | (Raised _, c', made) => (Failed, secure_data, (name, c'), made)
      end
  end.

(** One iteration of the loop of [fetch_secure_data]: the [try] body and its
    [except Exception: continue]. *)
Definition fetch_one (secure_code : string) (world : string -> Source)
    (secure_data : dict) (entry : string * DataConnector)
    : dict * (string * DataConnector) * nat :=
  let '(_, secure_data', entry', made) :=
    try_fetch secure_code world secure_data entry in
  (secure_data', entry', made).

Fixpoint fetch_loop (secure_code : string) (world : string -> Source)
    (connectors : list (string * DataConnector)) (secure_data : dict)
    : dict * list (string * DataConnector) * nat :=
  match connectors with
  | [] => (secure_data, [], O)
  | entry :: rest =>
      let '(sd, entry', made) := fetch_one secure_code world secure_data entry in
      let '(res, rest', made') := fetch_loop secure_code world rest sd in
      (res, entry' :: rest', (made + made')%nat)
  end.

(** [DataConnectorManager.fetch_secure_data(secure_code)]: the merged
    attributes, the connectors with their breakers updated, and the number
    of network attempts. *)
Definition fetch_secure_data (secure_code : string) (world : string -> Source)
    (connectors : list (string * DataConnector))
    : dict * list (string * DataConnector) * nat :=
  fetch_loop secure_code world connectors ∅.

(** The entries [update] writes for a value: an object's own, an array's
    pairs up to its first element that is not one, and none otherwise. *)
Definition written (data : option json) : option dict :=
  match data with
  | Some (JObject o) => Some o
  | Some (JArray items) => Some (fst (update_from_items ∅ items 0))
  | _ => None
  end.

(** What one source contributes to a fetch: the entries written from what
    its request returned, nothing when the URL does not format or the
    request raises. *)
Definition source_attributes (secure_code : string) (world : string -> Source)
    (entry : string * DataConnector) : option dict :=
  match str_format (url (config (snd entry))) secure_code with
  | None => None
  | Some u =>
      match fst (fst (_make_request (snd entry) (world (fst entry)) u
                        (method (config (snd entry))))) with
      | Returned data => written data
      | Raised _ => None
      end
  end.

(** How the iteration for one source ends. *)
Definition source_status (secure_code : string) (world : string -> Source)
    (entry : string * DataConnector) : fetch_status :=
  fst (fst (fst (try_fetch secure_code world ∅ entry))).

(** The value a key ends up with when dictionaries are written one after
    the other: that of the last one that defines it. *)
Fixpoint last_defining (k : string) (ds : list dict) : option pyval :=
  match ds with
  | [] => None
  | d :: rest =>
      match last_defining k rest with
      | Some v => Some v
      | None => d !! k
      end
  end.

Definition merge_in_order (ds : list dict) (start : dict) : dict :=
  fold_left (fun acc d => d ∪ acc) ds start.

End Manager.

End Connectors.

(** ** Rule engine ([logic/models.py], [logic/rules.py]) *)

Module Rules.

(** [RuleCondition]: a condition dictionary with its three entries. *)
Record RuleCondition := mkCondition {
  fact : string;
  operator : string;
  value : pyval
}.

Definition valid_operators : list string :=
  ["EQUALS"; "NOT_EQUALS"; "GREATER_THAN"; "LESS_THAN";
   "GREATER_THAN_EQUAL"; "LESS_THAN_EQUAL";
   "IN"; "NOT_IN"; "CONTAINS"; "NOT_CONTAINS"].

(** [RuleCondition.validate_operator]: [true] when the validator returns,
    [false] when it raises [ValueError]. *)
Definition validate_operator (v : string) : bool :=
  existsb (String.eqb v) valid_operators.

(** [Rule]: [conditions] maps a group keyword to its list of conditions. *)
Record Rule := mkRule {
  name : string;
  conditions : gmap string (list RuleCondition);
  action : string;
  reason_pass : option string;
  reason_fail : option string;
  jurisdiction : option string
}.

Definition valid_actions : list string := ["GRANT_YES"; "GRANT_NO"; "NO_DECISION"].

Definition validate_action (v : string) : bool :=
  existsb (String.eqb v) valid_actions.

(** [RuleEngine._load_rules]: building a [Rule] from each entry runs the
    field validators; a rule that fails them is logged and left out. *)
Definition _load_rules (rules_data : list Rule) : list Rule :=
  List.filter (fun r => validate_action (action r)) rules_data.

Record result := mkResult {
  matched : bool;
  reason : string
}.

Definition fact_not_found (f : string) : result :=
  {| matched := false; reason := "Fact '" +:+ f +:+ "' not found in context" |}.

Definition condition_outcome (c : RuleCondition) (m : raises bool) : result :=
  match m with
  | Val b =>
      {| matched := b;
         reason := "Condition " +:+ fact c +:+ " " +:+ operator c +:+ " "
                   +:+ py_str (value c) +:+ " = " +:+ str_bool b |}
  | Exc msg =>
      {| matched := false; reason := "Error evaluating condition: " +:+ msg |}
  end.

Definition is_list (v : pyval) : bool :=
  match v with VList _ => true | _ => false end.

Definition is_list_or_str (v : pyval) : bool :=
  match v with VList _ | VStr _ => true | _ => false end.

Definition neg (m : raises bool) : raises bool :=
  match m with Val b => Val (negb b) | Exc e => Exc e end.

(** [RuleEngine._evaluate_condition] *)
Definition _evaluate_condition (c : RuleCondition) (context : dict) : result :=
  match context !! fact c with
  | None => fact_not_found (fact c)
  | Some actual_value =>
      let op := operator c in
      let v := value c in
      if String.eqb op "EQUALS" then
        condition_outcome c (Val (py_eq actual_value v))
      else if String.eqb op "NOT_EQUALS" then
        condition_outcome c (Val (negb (py_eq actual_value v)))
      else if String.eqb op "GREATER_THAN" then
        condition_outcome c (py_ord OpGt actual_value v)
      else if String.eqb op "LESS_THAN" then
        condition_outcome c (py_ord OpLt actual_value v)
      else if String.eqb op "GREATER_THAN_OR_EQUAL_TO" then
        condition_outcome c (py_ord OpGe actual_value v)
      else if String.eqb op "LESS_THAN_OR_EQUAL_TO" then
        condition_outcome c (py_ord OpLe actual_value v)
      else if String.eqb op "IN" then
        condition_outcome c
          (if is_list v then py_in actual_value v else Val false)
      else if String.eqb op "NOT_IN" then
        condition_outcome c
          (if is_list v then neg (py_in actual_value v) else Val false)
      else if String.eqb op "CONTAINS" then
        condition_outcome c
          (if is_list_or_str actual_value then py_in v actual_value else Val false)
      else if String.eqb op "NOT_CONTAINS" then
        condition_outcome c
          (if is_list_or_str actual_value then neg (py_in v actual_value)
           else Val false)
      else
        {| matched := false; reason := "Unknown operator: " +:+ op |}
  end.

(** [RuleEngine._evaluate_and_conditions] *)
Fixpoint _evaluate_and_conditions (conds : list RuleCondition) (context : dict)
    : result :=
  match conds with
  | [] => {| matched := true; reason := "All AND conditions passed" |}
  | c :: rest =>
      let r := _evaluate_condition c context in
      if negb (matched r) then r else _evaluate_and_conditions rest context
  end.

(** [RuleEngine._evaluate_or_conditions] *)
Fixpoint _evaluate_or_conditions (conds : list RuleCondition) (context : dict)
    : result :=
  match conds with
  | [] => {| matched := false; reason := "All OR conditions failed" |}
  | c :: rest =>
      let r := _evaluate_condition c context in
      if matched r then r else _evaluate_or_conditions rest context
  end.

(** [RuleEngine._evaluate_rule] *)
Definition _evaluate_rule (rule : Rule) (context : dict) : result :=
  match conditions rule !! "AND" with
  | Some conds =>
      let r := _evaluate_and_conditions conds context in
      if matched r then
        {| matched := true;
           reason := str_or (reason_pass rule)
                       ("All AND conditions passed for rule '" +:+ name rule +:+ "'") |}
      else
        {| matched := false;
           reason := str_or (reason_fail rule)
                       ("AND condition failed: " +:+ reason r) |}
  | None =>
      match conditions rule !! "OR" with
      | Some conds =>
          let r := _evaluate_or_conditions conds context in
          if matched r then
            {| matched := true;
               reason := str_or (reason_pass rule)
                           ("OR condition passed for rule '" +:+ name rule +:+ "'") |}
          else
            {| matched := false;
               reason := str_or (reason_fail rule)
                           ("All OR conditions failed for rule '" +:+ name rule +:+ "'") |}
      | None =>
          {| matched := false;
             reason := "Invalid rule structure for rule '" +:+ name rule +:+ "'" |}
      end
  end.

(** [rule.jurisdiction and rule.jurisdiction != context.get("jurisdiction")] *)
Definition jurisdiction_skips (rule : Rule) (context : dict) : bool :=
  match jurisdiction rule with
  | Some j =>
      str_truthy j
      && negb (py_eq (VStr j) (default VNone (context !! "jurisdiction")))
  | None => false
  end.

Definition chain_entry (rule : Rule) (r : result) : string :=
  "Rule '" +:+ name rule +:+ "': " +:+ reason r.

(** The [for rule in self.rules] loop of [evaluate]: the verdict and the
    reasoning chain when the loop is left.  On the values modelled here no
    call inside the [try] raises, so its [except] arm never runs. *)
Fixpoint evaluate_loop (rules : list Rule) (context : dict)
    (reasoning_chain : list string) : string * list string :=
  match rules with
  | [] => ("NO", reasoning_chain)
  | rule :: rest =>
      if jurisdiction_skips rule context
      then evaluate_loop rest context reasoning_chain
      else
        let r := _evaluate_rule rule context in
        let chain := (reasoning_chain ++ [chain_entry rule r])%list in
        if matched r then
          if String.eqb (action rule) "GRANT_YES" then ("YES", chain)
          else if String.eqb (action rule) "GRANT_NO" then ("NO", chain)
          else if String.eqb (action rule) "NO_DECISION" then ("NO", chain)
          else evaluate_loop rest context chain
        else evaluate_loop rest context chain
  end.

Definition render_chain (reasoning_chain : list string) : string :=
  match reasoning_chain with
  | [] => "No applicable rules found"
  | _ => join " | " reasoning_chain
  end.

(** [RuleEngine.evaluate(context)] *)
Definition evaluate (rules : list Rule) (context : dict) : string * string :=
  let '(verdict, chain) := evaluate_loop rules context [] in
  (verdict, render_chain chain).

(** A rule fires on a context when its jurisdiction filter lets it through
    and its condition group matches. *)
Definition rule_fires (context : dict) (rule : Rule) : bool :=
  negb (jurisdiction_skips rule context)
  && matched (_evaluate_rule rule context).

(** The chain entries of the rules of a list that are not filtered out. *)
Definition entries (context : dict) (rules : list Rule) : list string :=
  map (fun r => chain_entry r (_evaluate_rule r context))
      (List.filter (fun r => negb (jurisdiction_skips r context)) rules).

End Rules.

(** ** Request validators ([logic/models.py], class [VerificationRequest]) *)

Module Models.

Definition valid_jurisdictions : list string := ["UK"; "US"; "EU"; "CA"; "AU"].

Section WithPlatform.
Context `{Platform}.

(** [validate_secure_code]: the normalised value, or the [ValueError]. *)
Definition validate_secure_code (v : string) : raises string :=
  if negb (str_truthy v) || (Z.of_nat (len v) <? 3)
  then Exc "Secure code must be at least 3 characters"
  else Val (upper v).

(** [validate_jurisdiction]: membership is tested on the value as given,
    and only then is it upper-cased. *)
Definition validate_jurisdiction (v : string) : raises string :=
  if negb (existsb (String.eqb v) valid_jurisdictions)
  then Exc ("Jurisdiction must be one of: "
            +:+ py_repr (VList (map VStr valid_jurisdictions)))
  else Val (upper v).

End WithPlatform.

End Models.

(** ** Credentials ([core/config.py], [core/security.py])

    Instants are whole seconds.  The code signs the floats that
    [timestamp()] returns, and PyJWT compares [int(claim)] with the float
    clock: a stamp here is the signed float as [int] truncates it, and a
    clock reading is the clock rounded down, which leaves every comparison
    as it is. *)

Module Security.

Record Settings := mkSettings {
  jwt_secret : string;
  jwt_algorithm : string;
  jwt_expiry_hours : Z
}.

Definition default_settings : Settings :=
  {| jwt_secret := "your-super-secret-jwt-key-that-is-at-least-32-characters-long";
     jwt_algorithm := "HS256";
     jwt_expiry_hours := 24 |}.

(** What [jwt.decode] raises.  [InvalidTokenError] stands for itself and
    for its subclasses other than [ExpiredSignatureError];
    [UncaughtTypeError] is the [TypeError] of [int(None)], which PyJWT lets
    through. *)
Inductive jwt_error :=
| ExpiredSignatureError
| InvalidTokenError
| UncaughtTypeError.

(** What [jwt.decode] does: it returns the claims or raises. *)
Inductive decoded :=
| Claims (payload : dict)
| Raises (e : jwt_error).

(** What [verify_token] does: it returns the payload, raises the
    [ValueError] of one of its two [except] arms, or lets the [TypeError]
    through. *)
Inductive verified :=
| Payload (payload : dict)
| ValueError (msg : string)
| TypeError.

(** [datetime.utcnow().timestamp()] at POSIX time [t] on a host whose local
    time is [utcoffset] seconds ahead of UTC: [utcnow()] returns the UTC wall
    clock as a naive datetime, and [timestamp()] reads a naive datetime as
    local time. *)
Definition utcnow_timestamp (utcoffset t : Z) : Z := t - utcoffset.

(** How PyJWT reads a time claim: [int(value)]. *)
Inductive claim_time :=
| Instant (n : Z)
| IntValueError
| IntTypeError.

Section WithPlatform.
Context `{Platform}.

Definition py_int (v : pyval) : claim_time :=
  match v with
  | VInt n => Instant n
  | VBool b => Instant (if b then 1 else 0)
  | VStr s =>
      match int_of_str s with
      | Some n => Instant n
      | None => IntValueError
      end
  | VNone | VList _ => IntTypeError
  end.

(** The checks of PyJWT on the registered claims, each giving the exception
    it raises, if any: [iat] and [nbf] must not lie in the future, [exp]
    must, and a token that names an audience is refused because
    [verify_token] names none.  No function of the program signs [nbf] or
    [aud]. *)
Definition not_in_future (claims : dict) (k : string) (now : Z)
    : option jwt_error :=
  match claims !! k with
  | None => None
  | Some v =>
      match py_int v with
      | Instant t => if now <? t then Some InvalidTokenError else None
      | IntValueError => Some InvalidTokenError
      | IntTypeError => Some UncaughtTypeError
      end
  end.

Definition validate_iat (claims : dict) (now : Z) : option jwt_error :=
  not_in_future claims "iat" now.

Definition validate_nbf (claims : dict) (now : Z) : option jwt_error :=
  not_in_future claims "nbf" now.

Definition validate_exp (claims : dict) (now : Z) : option jwt_error :=
  match claims !! "exp" with
  | None => None
  | Some v =>
      match py_int v with
      | Instant exp => if exp <=? now then Some ExpiredSignatureError else None
      | IntValueError => Some InvalidTokenError
      | IntTypeError => Some UncaughtTypeError
      end
  end.

Definition validate_aud (claims : dict) : option jwt_error :=
  match claims !! "aud" with
  | None => None
  | Some v => if py_truthy v then Some InvalidTokenError else None
  end.

Definition validate_claims (claims : dict) (now : Z) : decoded :=
  match validate_iat claims now with
  | Some e => Raises e
  | None =>
      match validate_nbf claims now with
      | Some e => Raises e
      | None =>
          match validate_exp claims now with
          | Some e => Raises e
          | None =>
              match validate_aud claims with
              | Some e => Raises e
              | None => Claims claims
              end
          end
      end
  end.

(** [jwt.encode(payload, key, algorithm)] *)
Definition jwt_encode (payload : dict) (key alg : string) : jwt :=
  JWS alg payload (jws_signature alg key payload).

(** [jwt.decode(token, key, algorithms)] at clock reading [now], by the
    contract of PyJWT: the header algorithm must be among those allowed and
    the signature must be the one the key gives; then the registered claims
    are checked. *)
Definition jwt_decode (token : jwt) (key : string) (algorithms : list string)
    (now : Z) : decoded :=
  match token with
  | NotJWT _ => Raises InvalidTokenError
  | JWS alg claims sig =>
      if negb (existsb (String.eqb alg) algorithms)
      then Raises InvalidTokenError
      else if negb (String.eqb sig (jws_signature alg key claims))
      then Raises InvalidTokenError
      else validate_claims claims now
  end.

(** [generate_verifiable_token]; [now] is the number of seconds that
    [datetime.utcnow().timestamp()] yields. *)
Definition generate_verifiable_token (settings : Settings) (now : Z)
    (verdict secure_code jurisdiction verification_id
     reasoning_hash request_hash : string) : jwt :=
  let expiration := now + jwt_expiry_hours settings * 3600 in
  let payload : dict :=
    <["verdict" := VStr verdict]>
    (<["secure_code" := VStr secure_code]>
    (<["jurisdiction" := VStr jurisdiction]>
    (<["verification_id" := VStr verification_id]>
    (<["request_hash" := VStr request_hash]>
    (<["issued_at" := VStr (isoformat now)]>
    (<["exp" := VInt expiration]>
    (<["iat" := VInt now]>
    (<["reasoning_hash" := VStr reasoning_hash]> ∅)))))))) in
  jwt_encode payload (jwt_secret settings) (jwt_algorithm settings).

(** [generate_minimal_token] *)
Definition generate_minimal_token (settings : Settings) (now : Z)
    (verdict verification_id reasoning_hash : string) : jwt :=
  let expiration := now + jwt_expiry_hours settings * 3600 in
  let payload :=
    dict_literal
      [("verdict", VStr verdict);
       ("verification_id", VStr verification_id);
       ("issued_at", VStr (isoformat now));
       ("exp", VInt expiration);
       ("iat", VInt now);
       ("reasoning_hash", VStr reasoning_hash)] in
  jwt_encode payload (jwt_secret settings) (jwt_algorithm settings).

(** [generate_token]; [fresh_id] is the value [uuid.uuid4()] draws.  The
    payload display names [secure_code] twice. *)
Definition generate_token (settings : Settings) (now : Z) (fresh_id : string)
    (verdict secure_code jurisdiction : string) (secure_data : dict)
    (reasoning : string) : jwt :=
  let expiration := now + jwt_expiry_hours settings * 3600 in
  let payload :=
    dict_literal
      [("verdict", VStr verdict);
       ("secure_code", VStr secure_code);
       ("jurisdiction", VStr jurisdiction);
       ("verification_id", VStr fresh_id);
       ("issued_at", VStr (isoformat now));
       ("exp", VInt expiration);
       ("iat", VInt now);
       ("secure_code", dict_get secure_data "secure_code");
       ("eligibility_score", dict_get secure_data "eligibility_score");
       ("risk_ratio", dict_get secure_data "risk_ratio");
       ("stability_years", dict_get secure_data "stability_years");
       ("jurisdiction_verified", dict_get secure_data "jurisdiction_verified");
       ("verification_tier", dict_get secure_data "verification_tier");
       ("car_registration", dict_get secure_data "car_registration");
       ("first_movie_seen", dict_get secure_data "first_movie_seen");
       ("first_pet_name", dict_get secure_data "first_pet_name");
       ("mothers_maiden_name", dict_get secure_data "mothers_maiden_name");
       ("first_school_name", dict_get secure_data "first_school_name");
       ("favorite_color", dict_get secure_data "favorite_color");
       ("birth_town", dict_get secure_data "birth_town");
       ("reasoning_hash", VStr (sha512_hexdigest reasoning))] in
  jwt_encode payload (jwt_secret settings) (jwt_algorithm settings).

(** [verify_token(token)] at clock reading [now] *)
Definition verify_token (settings : Settings) (now : Z) (token : jwt) : verified :=
  match jwt_decode token (jwt_secret settings) [jwt_algorithm settings] now with
  | Claims payload => Payload payload
  | Raises ExpiredSignatureError => ValueError "Token has expired"
  | Raises InvalidTokenError => ValueError "Invalid token"
  | Raises UncaughtTypeError => TypeError
  end.

End WithPlatform.

End Security.

(** ** Orchestrator ([core/stateless_engine.py]) *)

Module Engine.
Import Security.

Record VerificationRequest := mkVerificationRequest {
  secure_code : string;
  jurisdiction : string;
  client_id : option string;
  security_answers : option (list (string * string))
}.

Record VerificationResponse := mkVerificationResponse {
  verdict : string;
  jwt_token : jwt;
  qr_code : string
}.

Record StatelessEngine := mkStatelessEngine {
  settings : Settings;
  connector_manager : list (string * Connectors.DataConnector);
  rule_engine : list Rules.Rule
}.

Definition valid_methods : list string := ["GET"; "POST"; "PUT"; "DELETE"].
Definition valid_auth_types : list string := ["none"; "api_key"; "oauth"; "bearer"].

(** The validators of [EndpointConfig]. *)
Definition validate_endpoint (cfg : Connectors.EndpointConfig) : bool :=
  existsb (String.eqb (Connectors.method cfg)) valid_methods
  && existsb (String.eqb (Connectors.auth_type cfg)) valid_auth_types.

(** [DataConnectorManager._initialize_connectors]: an entry that fails
    validation is logged and left out. *)
Definition _initialize_connectors
    (endpoints : list (string * Connectors.EndpointConfig))
    : list (string * Connectors.DataConnector) :=
  map (fun e => (fst e, Connectors.new_connector (snd e)))
      (List.filter (fun e => validate_endpoint (snd e)) endpoints).

(** [StatelessEngine.__init__] *)
Definition new_engine (s : Settings)
    (endpoints : list (string * Connectors.EndpointConfig))
    (rules_data : list Rules.Rule) : StatelessEngine :=
  {| settings := s;
     connector_manager := _initialize_connectors endpoints;
     rule_engine := Rules._load_rules rules_data |}.

(** What the surroundings supply to one request: the sources, the value
    [uuid.uuid4()] draws, and the number of seconds that
    [datetime.utcnow().timestamp()] yields, which is what gets stamped into
    [iat] and, with the validity window added, into [exp]. *)
Record Env := mkEnv {
  world : string -> Connectors.Source;
  uuid4 : string;
  utcnow : Z
}.

Definition valid_fields : list string :=
  ["car_registration"; "first_movie_seen"; "first_pet_name";
   "mothers_maiden_name"; "first_school_name"; "favorite_color"; "birth_town"].

Record validation := mkValidation {
  valid : bool;
  reason : string
}.

Section WithPlatform.
Context `{Platform}.

(** [_validate_security_answers(provided_answers, secure_data)].  The loop
    over [provided_answers.items()] returns in its first iteration.  A stored
    value that is not a string has no [strip]; the [AttributeError] is caught
    by the function's own [except]. *)
Definition _validate_security_answers (provided_answers : list (string * string))
    (secure_data : dict) : validation :=
  match provided_answers with
  | [] => {| valid := false; reason := "No security answer provided" |}
  | (field, provided_answer) :: _ =>
      if negb (existsb (String.eqb field) valid_fields) then
        {| valid := false;
           reason := "Invalid security question field: " +:+ field |}
      else if negb (str_truthy provided_answer)
              || negb (str_truthy (strip provided_answer)) then
        {| valid := false; reason := "Empty security answer for: " +:+ field |}
      else
        let provided := lower (strip provided_answer) in
        match default (VStr "") (secure_data !! field) with
        | VStr s =>
            let stored := lower (strip s) in
            if negb (String.eqb provided stored) then
              {| valid := false;
                 reason := "Security answer mismatch for: " +:+ field |}
            else
              {| valid := true;
                 reason := "Security answer validated successfully for: " +:+ field |}
        | v =>
            {| valid := false;
               reason := "Security validation error: '" +:+ type_name v
                         +:+ "' object has no attribute 'strip'" |}
        end
  end.

(** Truthiness of a dictionary and of the optional answers. *)
Definition dict_truthy (d : dict) : bool := negb (Nat.eqb (size d) 0).

Definition answers_truthy (a : option (list (string * string))) : bool :=
  match a with
  | Some (_ :: _) => true
  | _ => false
  end.

Definition opt_str (o : option string) : pyval :=
  match o with
  | Some s => VStr s
  | None => VNone
  end.

(** Lines 29-37 of [process_request]: the context literal and
    [context.update(secure_data)]. *)
Definition assemble_context (request : VerificationRequest) (secure_data : dict)
    : dict :=
  let context : dict :=
    <["secure_code" := VStr (secure_code request)]>
    (<["jurisdiction" := VStr (jurisdiction request)]>
    (<["client_id" := opt_str (client_id request)]> ∅)) in
  if dict_truthy secure_data then secure_data ∪ context else context.

(** Lines 36-49: whether the request is answered [NO] before any rule runs. *)
Definition answers_rejected (request : VerificationRequest) (secure_data : dict)
    : bool :=
  dict_truthy secure_data
  && answers_truthy (security_answers request)
  && negb (valid (_validate_security_answers
                    (default [] (security_answers request)) secure_data)).

(** [client_id or 'none'] *)
Definition client_or_none (client_id : option string) : string :=
  str_or client_id "none".

(** The f-string that is hashed into [request_hash]. *)
Definition request_data (secure_code jurisdiction : string)
    (client_id : option string) : string :=
  secure_code +:+ ":" +:+ jurisdiction +:+ ":" +:+ client_or_none client_id.

(** The names bound at module level in [stateless_engine.py]: its imports,
    [logger] and the class.  [generate_verifiable_token] is not one of them. *)
Definition module_globals : list string :=
  ["asyncio"; "Dict"; "Any"; "List"; "Tuple"; "logging"; "uuid"; "hashlib";
   "get_settings"; "generate_token"; "generate_qr_code";
   "DataConnectorManager"; "RuleEngine";
   "VerificationRequest"; "VerificationResponse";
   "get_logger"; "logger"; "StatelessEngine"].

Definition name_defined (n : string) : bool :=
  existsb (String.eqb n) module_globals.

(** The stored answer for a field as the comparison sees it: trimmed and
    lower-cased, the empty string when the field is missing, and nothing
    when the stored value is not a string. *)
Definition stored_answer (secure_data : dict) (field : string) : option string :=
  match default (VStr "") (secure_data !! field) with
  | VStr s => Some (lower (strip s))
  | _ => None
  end.

(** Whether the first provided answer passes: its field is one of the
    enumerated ones, it is not blank, and it equals the stored attribute
    when both are trimmed and lower-cased. *)
Definition answer_accepted (field answer : string) (secure_data : dict) : bool :=
  existsb (String.eqb field) valid_fields
  && str_truthy (strip answer)
  && match default (VStr "") (secure_data !! field) with
     | VStr s => String.eqb (lower (strip answer)) (lower (strip s))
     | _ => false
     end.

(** [_fetch_secure_data]: the manager's result; its [except] arm would
    substitute the empty dictionary. *)
Definition _fetch_secure_data (e : StatelessEngine) (env : Env)
    (secure_code : string) : dict :=
  fst (fst (Connectors.fetch_secure_data secure_code (world env)
              (connector_manager e))).

(** [_evaluate_rules] *)
Definition _evaluate_rules (e : StatelessEngine) (context : dict)
    : string * string :=
  Rules.evaluate (rule_engine e) context.

(** The credential that lines 54-71 of [process_request] describe: the
    verification id, the two digests and the call of line 64, read as a call
    of [core.security.generate_verifiable_token].  [process_request] itself
    never gets this far, since the name is not bound in its module. *)
Definition issue_token (s : Settings) (env : Env) (request : VerificationRequest)
    (verdict reasoning : string) : jwt :=
  let verification_id := uuid4 env in
  let reasoning_hash := sha512_hexdigest reasoning in
  let request_hash :=
    sha256_hexdigest
      (request_data (secure_code request) (jurisdiction request)
                    (client_id request)) in
  generate_verifiable_token s (utcnow env) verdict (secure_code request)
    (jurisdiction request) verification_id reasoning_hash request_hash.

(** [process_request(request)]: what the call produces, and how many times
    the rule engine was run.  The call on line 64 names a function that the
    module never imports, so a request that gets that far raises
    [NameError], which the [except] arm logs and re-raises.  The [finally]
    arm drops the engine's collaborators; an engine serves one request. *)
Definition process_request (e : StatelessEngine) (env : Env)
    (request : VerificationRequest) : raises VerificationResponse * nat :=
  let secure_data := _fetch_secure_data e env (secure_code request) in
  let context := assemble_context request secure_data in
  if answers_rejected request secure_data then
    (Val {| verdict := "NO"; jwt_token := NotJWT ""; qr_code := "" |}, O)
  else
    let '(verdict, reasoning) := _evaluate_rules e context in
    if name_defined "generate_verifiable_token" then
      let token := issue_token (settings e) env request verdict reasoning in
      (Val {| verdict := verdict; jwt_token := token;
              qr_code := qr_png_base64 token |}, 1%nat)
    else
      (Exc "name 'generate_verifiable_token' is not defined", 1%nat).

(** The claim set that [issue_token] signs. *)
Definition issued_claims (s : Settings) (env : Env)
    (request : VerificationRequest) (verdict reasoning : string) : dict :=
  match issue_token s env request verdict reasoning with
  | JWS _ claims _ => claims
  | NotJWT _ => ∅
  end.

End WithPlatform.

End Engine.

(** ** Request-integrity endpoint ([api/endpoints.py]) *)

Module Endpoints.
Import Security.

Inductive integrity :=
| HTTP401
| NotVerified (reason : string)
| Verified (verdict verification_id issued_at expires_at : pyval).

Definition claim (payload : dict) (k : string) : pyval :=
  default VNone (payload !! k).

Section WithPlatform.
Context `{Platform}.

(** [verify_original_request(token, secure_code, jurisdiction, client_id)] *)
Definition verify_original_request (s : Settings) (now : Z) (token : jwt)
    (secure_code jurisdiction : string) (client_id : option string) : integrity :=
  match verify_token s now token with
  | ValueError _ | TypeError => HTTP401
  | Payload payload =>
      let request_hash :=
        sha256_hexdigest (Engine.request_data secure_code jurisdiction client_id) in
      let token_secure_code := claim payload "secure_code" in
      let token_jurisdiction := claim payload "jurisdiction" in
      let token_request_hash := claim payload "request_hash" in
      if negb (py_eq (VStr secure_code) token_secure_code)
         || negb (py_eq (VStr jurisdiction) token_jurisdiction)
         || negb (py_eq (VStr request_hash) token_request_hash)
      then NotVerified "Request parameters do not match original verification"
      else Verified (claim payload "verdict") (claim payload "verification_id")
                    (claim payload "iat") (claim payload "exp")
  end.

Inductive introspection :=
| QR401
| QRVerified (verdict secure_code jurisdiction verification_id request_hash
              issued_at expires_at reasoning_hash : pyval).

(** [verify_qr_token(token)] *)
Definition verify_qr_token (s : Settings) (now : Z) (token : jwt) : introspection :=
  match verify_token s now token with
  | ValueError _ | TypeError => QR401
  | Payload payload =>
      QRVerified (claim payload "verdict") (claim payload "secure_code")
        (claim payload "jurisdiction") (claim payload "verification_id")
        (claim payload "request_hash") (claim payload "iat")
        (claim payload "exp") (claim payload "reasoning_hash")
  end.

Inductive http_response :=
| OK200 (r : Engine.VerificationResponse)
| HTTP500 (detail : string).

(** [verify_eligibility(request)]: the engine's response, or the
    [HTTPException] built from whatever it raised. *)
Definition verify_eligibility (e : Engine.StatelessEngine) (env : Engine.Env)
    (request : Engine.VerificationRequest) : http_response :=
  match fst (Engine.process_request e env request) with
  | Val r => OK200 r
  | Exc msg => HTTP500 ("Verification failed: " +:+ msg)
  end.

End WithPlatform.

End Endpoints.

(** ** An executable instance of the library interface

    Stand-ins that compute, used to run the program on concrete inputs: the
    digests tag their argument, the signature spells out key, algorithm and
    claims, [format] substitutes the first [{secure_code}] field, [int]
    reads decimal digits, and the string functions are the ASCII ones (the
    sample inputs are ASCII). *)

Module Demo.

Definition show_claims (claims : dict) : string :=
  join "," (map (fun kv => fst kv +:+ "=" +:+ py_repr (snd kv)) (map_to_list claims)).

Definition format_code (template code : string) : option string :=
  let field := "{secure_code}" in
  match String.index 0 field template with
  | Some i =>
      Some (String.substring 0 i template +:+ code
            +:+ String.substring (i + String.length field)
                  (String.length template - i - String.length field) template)
  | None => Some template
  end.

Fixpoint parse_digits (s : string) (acc : Z) : option Z :=
  match s with
  | EmptyString => Some acc
  | String c s' =>
      let n := Z.of_N (N_of_ascii c) in
      if (48 <=? n) && (n <=? 57)
      then parse_digits s' (acc * 10 + (n - 48))
      else None
  end.

Definition parse_int (s : string) : option Z :=
  if str_truthy s then parse_digits s 0 else None.

Definition platform : Platform :=
  {| sha256_hexdigest := fun s => "sha256(" +:+ s +:+ ")";
     sha512_hexdigest := fun s => "sha512(" +:+ s +:+ ")";
     jws_signature := fun alg key claims =>
       alg +:+ "/" +:+ key +:+ "/" +:+ show_claims claims;
     str_format := format_code;
     isoformat := fun t => pretty t;
     int_of_str := parse_int;
     qr_png_base64 := fun _ => "iVBORw0KGgo=";
     strip := ascii_strip;
     lower := ascii_lower;
     upper := ascii_upper;
     len := String.length;
     strip_on_ascii := fun _ _ => eq_refl;
     lower_on_ascii := fun _ _ => eq_refl;
     upper_on_ascii := fun _ _ => eq_refl;
     len_on_ascii := fun _ _ => eq_refl;
     lower_nonempty :=
       ltac:(intros [|c s] E; [reflexivity | discriminate E]) |}.

(** Three configured sources. *)
Definition endpoint (u : string) : Connectors.EndpointConfig :=
  Connectors.mkEndpointConfig u "GET" "none" None 30 3.

Definition connectors : list (string * Connectors.DataConnector) :=
  Engine._initialize_connectors
    [("registry", endpoint "https://registry.test/{secure_code}");
     ("bureau", endpoint "https://bureau.test/{secure_code}");
     ("ledger", endpoint "https://ledger.test/{secure_code}")].

Definition registry_body : dict :=
  <["eligibility_score" := VInt 700]>
  (<["first_pet_name" := VStr "Fluffy"]>
  (<["verification_tier" := VStr "silver"]> ∅)).

Definition ledger_body : dict :=
  <["eligibility_score" := VInt 750]> (<["age" := VInt 20]> ∅).

(** A source that gives the same result at every attempt. *)
Definition steady (r : Connectors.http_result) : Connectors.Source :=
  Connectors.mkSource 0 (fun _ i => (Z.of_nat i, r)).

(** The registry and the ledger answer, the bureau is unreachable. *)
Definition world_mixed (name : string) : Connectors.Source :=
  if String.eqb name "registry"
  then steady (Connectors.HttpOk (Connectors.JObject registry_body))
  else if String.eqb name "ledger"
  then steady (Connectors.HttpOk (Connectors.JObject ledger_body))
  else steady (Connectors.HttpError "connection refused").

(** Every source is unreachable. *)
Definition world_down (name : string) : Connectors.Source :=
  steady (Connectors.HttpError "connection refused").

(** The ledger answers 200 with the array [[["age", 20], 5]]; the other
    sources are unreachable. *)
Definition world_malformed (name : string) : Connectors.Source :=
  if String.eqb name "ledger"
  then steady (Connectors.HttpOk
                 (Connectors.JArray [Connectors.ItemPair "age" (VInt 20);
                                     Connectors.ItemInt 5]))
  else steady (Connectors.HttpError "connection refused").

Definition us_rule : Rules.Rule :=
  Rules.mkRule "us_only" (<["AND" := []]> ∅) "GRANT_NO" None None (Some "US").

Definition tier_rule : Rules.Rule :=
  Rules.mkRule "tier"
    (<["OR" := [Rules.mkCondition "verification_tier" "EQUALS" (VStr "gold");
                Rules.mkCondition "eligibility_score" "GREATER_THAN" (VInt 800)]]> ∅)
    "GRANT_NO" None None None.

Definition adult_rule : Rules.Rule :=
  Rules.mkRule "adult"
    (<["AND" := [Rules.mkCondition "age" "GREATER_THAN" (VInt 18)]]> ∅)
    "GRANT_YES" None None None.

Definition any_tier_rule : Rules.Rule :=
  Rules.mkRule "any_tier"
    (<["OR" := [Rules.mkCondition "verification_tier" "EQUALS" (VStr "gold");
                Rules.mkCondition "verification_tier" "IN"
                  (VList [VStr "silver"; VStr "bronze"])]]> ∅)
    "NO_DECISION" None None None.

Definition unknown_action_rule : Rules.Rule :=
  Rules.mkRule "legacy" (<["AND" := []]> ∅) "ALLOW" None None None.

Definition rules_data : list Rules.Rule :=
  [unknown_action_rule; us_rule; tier_rule; adult_rule; any_tier_rule].

Definition request : Engine.VerificationRequest :=
  Engine.mkVerificationRequest "ABC123" "UK" (Some "client-1") None.

(** The context of [request] over the attributes of [world_mixed]. *)
Definition context : dict :=
  Engine.assemble_context request (ledger_body ∪ registry_body).

(** The context of [request] when nothing was fetched. *)
Definition bare_context : dict := Engine.assemble_context request ∅.

End Demo.

(** * Properties *)

(** ** Values *)

Example py_eq_bool_int : py_eq (VBool true) (VInt 1) = true.
Proof. reflexivity. Qed.

Example py_ord_lists :
  py_ord OpLt (VList [VInt 1; VInt 2]) (VList [VInt 1; VInt 3]) = Val true.
Proof. reflexivity. Qed.

Example py_ord_mixed :
  py_ord OpGe (VInt 3) (VStr "3")
  = Exc "'>=' not supported between instances of 'int' and 'str'".
Proof. reflexivity. Qed.

Example str_repr_quotes :
  str_repr "it's" = String double_quote ("it's" +:+ String double_quote "")
  /\ str_repr "a\b" = "'a\\b'"
  /\ str_repr (String "009" "x") = String single_quote (String backslash "tx'").
Proof. repeat split. Qed.

Example py_str_list :
  py_str (VList [VInt 1; VStr "a"; VBool false]) = "[1, 'a', False]".
Proof. reflexivity. Qed.

Example strip_lower : ascii_lower (ascii_strip "  Fluffy ") = "fluffy".
Proof. reflexivity. Qed.

Example substring_ok :
  is_substring "lo w" "hello world" = true /\ is_substring "" "" = true.
Proof. split; reflexivity. Qed.

Example format_code_ok :
  Demo.format_code "https://src/api/{secure_code}/facts" "ABC123"
  = Some "https://src/api/ABC123/facts".
Proof. reflexivity. Qed.

(** ** Circuit breaker *)

Section BreakerFacts.
Import Breaker.

Lemma set_state_state s cb : state (set_state s cb) = s.
Proof. reflexivity. Qed.

Lemma record_failure_threshold now cb :
  failure_threshold (record_failure now cb) = failure_threshold cb.
Proof. unfold record_failure; simpl. by case_match. Qed.

Lemma record_failure_count now cb :
  failure_count (record_failure now cb) = failure_count cb + 1.
Proof. unfold record_failure; simpl. by case_match. Qed.

Lemma record_failure_last now cb :
  last_failure_time (record_failure now cb) = Some now.
Proof. unfold record_failure; simpl. by case_match. Qed.

Lemma record_failure_state now cb :
  state (record_failure now cb)
  = if failure_threshold cb <=? failure_count cb + 1 then "OPEN" else state cb.
Proof. unfold record_failure; simpl. by case_match. Qed.

Lemma can_execute_fields now cb :
  let cb' := snd (can_execute now cb) in
  failure_threshold cb' = failure_threshold cb
  /\ failure_count cb' = failure_count cb
  /\ last_failure_time cb' = last_failure_time cb.
Proof.
  unfold can_execute. simpl.
  repeat case_match; simpl; auto.
Qed.

Lemma can_execute_state now cb :
  state (snd (can_execute now cb)) = state cb
  \/ (state cb = "OPEN" /\ state (snd (can_execute now cb)) = "HALF_OPEN").
Proof.
  unfold can_execute.
  destruct (String.eqb_spec (state cb) "CLOSED"); [by left|].
  destruct (String.eqb_spec (state cb) "OPEN"); [|by left].
  repeat case_match; simpl; auto.
Qed.

Lemma breaker_inv_init threshold tmo : breaker_inv threshold (init threshold tmo).
Proof.
  split; [done|]. split; [by left|].
  simpl. intros Hne. by destruct Hne.
Qed.

Lemma breaker_inv_step threshold c cb :
  breaker_inv threshold cb -> breaker_inv threshold (apply_call c cb).
Proof.
  intros (Hth & Hst & Hopen). destruct c as [now| |now]; simpl.
  - split; [by rewrite record_failure_threshold, Hth|].
    split.
    + rewrite record_failure_state. case_match; auto.
    + rewrite record_failure_state, record_failure_threshold,
        record_failure_count, record_failure_last.
      case_match eqn:E; intros Hne.
      * apply Z.leb_le in E. split; [lia | eauto].
      * apply Z.leb_gt in E. destruct (Hopen Hne) as [Hge _]. lia.
  - split; [done|]. split; [by left|].
    simpl. intros Hne. by destruct Hne.
  - destruct (can_execute_fields now cb) as (E1 & E2 & E3).
    destruct (can_execute_state now cb) as [E | [Eo E]].
    + split; [by rewrite E1|]. split; [by rewrite E|].
      rewrite E, E1, E2, E3. apply Hopen.
    + assert (state cb <> "CLOSED") as Hne by (rewrite Eo; discriminate).
      split; [by rewrite E1|]. split; [rewrite E; auto|].
      rewrite E1, E2, E3. intros _. by apply Hopen.
Qed.

Lemma reachable_inv threshold tmo cb :
  reachable threshold tmo cb -> breaker_inv threshold cb.
Proof.
  induction 1 as [|cb c _ IH].
  - apply breaker_inv_init.
  - by apply breaker_inv_step.
Qed.

(** C10. Every breaker obtained from a freshly constructed one by any
    sequence of [record_failure], [record_success] and [can_execute] calls
    has its state among CLOSED, OPEN and HALF_OPEN; when the state is not
    CLOSED its failure count has reached the threshold and the time of the
    last failure is set; so one [record_failure] on a HALF_OPEN breaker
    opens it again. *)
Theorem breaker_reachable_invariant (threshold tmo : Z) (cb : CircuitBreaker) :
  reachable threshold tmo cb ->
  (state cb = "CLOSED" \/ state cb = "OPEN" \/ state cb = "HALF_OPEN")
  /\ (state cb <> "CLOSED" ->
      failure_threshold cb <= failure_count cb
      /\ is_Some (last_failure_time cb))
  /\ (state cb = "HALF_OPEN" ->
      forall now, state (record_failure now cb) = "OPEN").
Proof.
  intros Hr. destruct (reachable_inv _ _ _ Hr) as (Hth & Hst & Hopen).
  split; [done|]. split; [done|].
  intros Hhalf now. rewrite record_failure_state.
  assert (state cb <> "CLOSED") as Hne by (rewrite Hhalf; discriminate).
  destruct (Hopen Hne) as [Hge _].
  case_match eqn:E; [done|]. apply Z.leb_gt in E. lia.
Qed.

Lemma breaker_reachable_invariant_witness :
  let cb :=
    apply_call (CanExecute 70000000)
      (apply_call (RecordFailure 5) (apply_call (RecordFailure 4)
        (apply_call (RecordFailure 3) (apply_call (RecordFailure 2)
          (apply_call (RecordFailure 1) (init 5 60)))))) in
  reachable 5 60 cb
  /\ state cb = "HALF_OPEN"
  /\ (forall now, state (record_failure now cb) = "OPEN").
Proof.
  intros cb.
  assert (reachable 5 60 cb) as Hr
    by (unfold cb; do 6 apply reach_step; apply reach_init).
  split; [exact Hr|]. split; [reflexivity|].
  apply (breaker_reachable_invariant 5 60 cb Hr). reflexivity.
Defined.

(** C6. On a breaker with threshold 5 and timeout 60 seconds: from CLOSED,
    five [record_failure] calls in a row leave it OPEN; while it is OPEN and
    no more than 60 seconds have passed since the last failure,
    [can_execute] answers false and [_make_request] raises without a single
    network attempt; once more than 60 seconds have passed [can_execute]
    answers true and the state becomes HALF_OPEN; [record_success] resets
    the failure count to 0 and the state to CLOSED. *)
Theorem breaker_default_cycle (cb : CircuitBreaker) :
  failure_threshold cb = 5 -> Breaker.timeout cb = 60 ->
  (state cb = "CLOSED" -> 0 <= failure_count cb ->
   forall t1 t2 t3 t4 t5,
     state (run [RecordFailure t1; RecordFailure t2; RecordFailure t3;
                 RecordFailure t4; RecordFailure t5] cb) = "OPEN")
  /\ (forall last now,
        state cb = "OPEN" -> last_failure_time cb = Some last ->
        now - last <= 60 * 1000000 ->
        can_execute now cb = (false, cb)
        /\ forall cfg src u m,
             Connectors.call_time src = now ->
             Connectors._make_request (Connectors.mkDataConnector cfg cb) src u m
             = (Connectors.Raised "Circuit breaker is open",
                Connectors.mkDataConnector cfg cb, O))
  /\ (forall last now,
        state cb = "OPEN" -> last_failure_time cb = Some last ->
        60 * 1000000 < now - last ->
        can_execute now cb = (true, set_state "HALF_OPEN" cb))
  /\ failure_count (record_success cb) = 0
  /\ state (record_success cb) = "CLOSED".
Proof.
  intros Hth Htmo. repeat apply conj; try reflexivity.
  - intros _ Hcount t1 t2 t3 t4 t5. unfold run; simpl.
    rewrite record_failure_state.
    rewrite !record_failure_threshold, !record_failure_count, Hth.
    case_match eqn:E; [done|]. apply Z.leb_gt in E. lia.
  - intros last now Hst Hlast Hle.
    assert (can_execute now cb = (false, cb)) as Hce.
    { unfold can_execute, timeout_elapsed. rewrite Hst, Hlast, Htmo. simpl.
      case_match eqn:E; [|done]. apply Z.ltb_lt in E. lia. }
    split; [exact Hce|].
    intros cfg src u m Hnow. unfold Connectors._make_request. simpl.
    by rewrite Hnow, Hce.
  - intros last now Hst Hlast Hgt.
    unfold can_execute, timeout_elapsed. rewrite Hst, Hlast, Htmo. simpl.
    case_match eqn:E; [done|]. apply Z.ltb_ge in E. lia.
Qed.

Lemma breaker_default_cycle_witness :
  let opened :=
    run [RecordFailure 1; RecordFailure 2; RecordFailure 3;
         RecordFailure 4; RecordFailure 5] default in
  state opened = "OPEN"
  /\ can_execute 60000005 opened = (false, opened)
  /\ can_execute 60000006 opened = (true, set_state "HALF_OPEN" opened)
  /\ state (record_success opened) = "CLOSED".
Proof.
  intros opened.
  destruct (breaker_default_cycle default eq_refl eq_refl) as (H1 & _).
  destruct (breaker_default_cycle opened eq_refl eq_refl)
    as (_ & H2 & H3 & _ & H4).
  split; [apply H1; [reflexivity | simpl; lia]|].
  split; [apply (H2 5 60000005); [reflexivity | reflexivity | lia]|].
  split; [apply (H3 5 60000006); [reflexivity | reflexivity | lia]|].
  exact H4.
Defined.

End BreakerFacts.

(** ** Fan-out fetch *)

Section FetchFacts.
Import Connectors.
Context `{Platform}.

Lemma update_from_items_union (d : dict) items i :
  fst (update_from_items d items i) = fst (update_from_items ∅ items 0) ∪ d.
Proof.
  assert (forall items (d : dict) i j,
            fst (update_from_items d items i)
            = fst (update_from_items ∅ items j) ∪ d) as Hgen.
  { clear. induction items as [|item rest IH]; intros d i j.
    - simpl. by rewrite (left_id_L ∅ (∪)).
    - destruct item as [k v| |b|n]; simpl;
        try (by rewrite (left_id_L ∅ (∪))).
      rewrite (IH (<[k := v]> d) (S i) (S j)),
        (IH (<[k := v]> ∅) (S j) (S j)).
      rewrite insert_empty, (insert_union_singleton_l d).
      by rewrite (assoc_L (∪)). }
  apply Hgen.
Qed.

Lemma dict_update_written (d : dict) data :
  fst (dict_update d data)
  = match written data with
    | Some w => w ∪ d
    | None => d
    end.
Proof.
  destruct data as [[o|items|str| |b|n]|]; simpl; try done.
  - apply update_from_items_union.
  - by destruct (str_truthy str).
Qed.

Lemma fetch_one_data secure_code world secure_data entry :
  fst (fst (fetch_one secure_code world secure_data entry))
  = match source_attributes secure_code world entry with
    | Some data => data ∪ secure_data
    | None => secure_data
    end.
Proof.
  unfold fetch_one, try_fetch, source_attributes.
  destruct entry as [name c]; simpl.
  destruct (str_format _ _) as [u|]; [|done].
  destruct (_make_request c (world name) u _) as [[[msg|data] c'] made];
    simpl; [done|].
  rewrite <- dict_update_written.
  by destruct (dict_update secure_data data) as [sd [e|]].
Qed.

Lemma fetch_loop_data secure_code world connectors secure_data :
  fst (fst (fetch_loop secure_code world connectors secure_data))
  = merge_in_order (omap (source_attributes secure_code world) connectors)
      secure_data.
Proof.
  revert secure_data.
  induction connectors as [|entry rest IH]; intros secure_data; [done|].
  simpl.
  pose proof (fetch_one_data secure_code world secure_data entry) as Hone.
  destruct (fetch_one secure_code world secure_data entry) as [[sd entry'] made].
  specialize (IH sd).
  destruct (fetch_loop secure_code world rest sd) as [[res rest'] made'].
  simpl in *. subst res sd.
  by destruct (source_attributes secure_code world entry).
Qed.

Lemma merge_in_order_lookup k ds start :
  merge_in_order ds start !! k
  = match last_defining k ds with
    | Some v => Some v
    | None => start !! k
    end.
Proof.
  revert start. induction ds as [|d rest IH]; intros start; [done|].
  simpl. unfold merge_in_order in IH. rewrite IH.
  destruct (last_defining k rest); [done|].
  destruct (d !! k) as [v|] eqn:E.
  - by apply lookup_union_Some_l.
  - by rewrite lookup_union_r.
Qed.

Lemma omap_all_none {A B} (f : A -> option B) (l : list A) :
  Forall (fun x => f x = None) l -> omap f l = [].
Proof.
  induction 1 as [|x l Hx _ IH]; [done|]. simpl. by rewrite Hx.
Qed.

(** Whatever the sources do, the fan-out fetch returns a dictionary (it is a
    total function: each iteration's body sits inside the
    [try]/[except Exception]).  The result is what the iterations wrote, in
    iteration order, so each key holds the value of the last source that
    wrote it; a source whose URL does not format or whose request raises
    writes nothing; when no source writes anything the result is empty. *)
Lemma fetch_merges_written_attributes (secure_code : string)
    (world : string -> Source) (connectors : list (string * DataConnector)) :
  let successes := omap (source_attributes secure_code world) connectors in
  let res := fst (fst (fetch_secure_data secure_code world connectors)) in
  res = merge_in_order successes ∅
  /\ (forall k, res !! k = last_defining k successes)
  /\ (Forall (fun e => source_attributes secure_code world e = None) connectors ->
      res = ∅).
Proof.
  intros successes res.
  assert (res = merge_in_order successes ∅) as Hres
    by apply fetch_loop_data.
  split; [exact Hres|]. split.
  - intros k. rewrite Hres, merge_in_order_lookup.
    destruct (last_defining k successes); [done|]. apply lookup_empty.
  - intros Hall. rewrite Hres. unfold successes.
    by rewrite (omap_all_none _ _ Hall).
Qed.

Lemma update_from_items_pairs (d : dict) (pairs : list (string * pyval))
    (bad : json_item) (rest : list json_item) (i : nat) :
  (forall k v, bad <> ItemPair k v) ->
  update_from_items d
    (map (fun kv => ItemPair (fst kv) (snd kv)) pairs ++ bad :: rest) i
  = (fold_left (fun d kv => <[fst kv := snd kv]> d) pairs d,
     Some ("cannot convert dictionary update sequence element #"
           +:+ pretty (i + length pairs)%nat +:+ " to a sequence")).
Proof.
  intros Hbad. revert d i.
  induction pairs as [|[k v] pairs IH]; intros d i; simpl.
  - rewrite Nat.add_0_r. destruct bad as [k v| |b|n]; [|done..].
    by destruct (Hbad k v).
  - rewrite IH. by rewrite Nat.add_succ_r.
Qed.

Lemma dict_literal_last (pairs : list (string * pyval)) k v :
  dict_literal (pairs ++ [(k, v)]) !! k = Some v.
Proof.
  unfold dict_literal. rewrite fold_left_app. simpl.
  apply lookup_insert_eq.
Qed.

Lemma dict_literal_nonempty (pairs : list (string * pyval)) :
  pairs <> [] -> dict_literal pairs <> ∅.
Proof.
  intros Hne E.
  destruct (exists_last Hne) as (l & [k v] & ->).
  pose proof (dict_literal_last l k v) as Hl.
  rewrite E in Hl. by rewrite lookup_empty in Hl.
Qed.

(** C7, where the code departs from it.  A source that answers 200 with a
    JSON array whose leading elements are pairs and which then holds an
    element that is not one: [_make_request] returns the array, and
    [secure_data.update] writes the leading pairs before it raises.  The
    iteration ends in the [except] arm, the source is logged as failed, and
    yet the pairs are in the result: with this as the only source, every
    source has failed and the result is not the empty map. *)
Theorem failed_source_contributes (secure_code : string)
    (world : string -> Source) (name u : string) (c : DataConnector) (t : Z)
    (pairs : list (string * pyval)) (bad : json_item) (rest : list json_item) :
  let req := {| req_method := method (config c); req_url := u;
                req_headers := auth_headers (config c) |} in
  str_format (url (config c)) secure_code = Some u ->
  fst (Breaker.can_execute (call_time (world name)) (circuit_breaker c)) = true ->
  1 <= retries (config c) ->
  respond (world name) req 0
  = (t, HttpOk (JArray (map (fun kv => ItemPair (fst kv) (snd kv)) pairs
                        ++ bad :: rest))) ->
  (forall k v, bad <> ItemPair k v) ->
  let out := fetch_secure_data secure_code world [(name, c)] in
  source_status secure_code world (name, c) = Failed
  /\ fst (fst out) = dict_literal pairs
  /\ snd out = 1%nat
  /\ (pairs <> [] -> fst (fst out) <> ∅).
Proof.
  intros req Hfmt Hok Hn Hresp Hbad out.
  assert (forall secure_data : dict,
            try_fetch secure_code world secure_data (name, c)
            = (Failed,
               fold_left (fun d kv => <[fst kv := snd kv]> d) pairs secure_data,
               (name,
                {| config := config c;
                   circuit_breaker :=
                     Breaker.record_success
                       (snd (Breaker.can_execute (call_time (world name))
                               (circuit_breaker c))) |}),
               1%nat)) as Htry.
  { intros secure_data. unfold try_fetch. rewrite Hfmt. unfold _make_request.
    destruct (Breaker.can_execute (call_time (world name)) (circuit_breaker c))
      as [ok cb].
    simpl in Hok. subst ok. simpl.
    rewrite (seqZ_cons 0 (retries (config c))) by lia. simpl attempts.
    change (Z.to_nat 0) with O. fold req. rewrite Hresp. simpl.
    by rewrite (update_from_items_pairs _ _ _ _ _ Hbad). }
  assert (fst (fst out) = dict_literal pairs /\ snd out = 1%nat) as [Hres Hmade].
  { unfold out, fetch_secure_data. simpl. unfold fetch_one.
    rewrite Htry. done. }
  split; [unfold source_status; by rewrite Htry|].
  split; [done|]. split; [done|].
  intros Hne. rewrite Hres. by apply dict_literal_nonempty.
Qed.

End FetchFacts.

(** ** Rule evaluation *)

Section RuleFacts.
Import Rules.

Lemma py_eq_str s v : py_eq (VStr s) v = true <-> v = VStr s.
Proof.
  destruct v; simpl; try (split; [discriminate | congruence]).
  rewrite String.eqb_eq. split; congruence.
Qed.

(** A rule is filtered out exactly when its jurisdiction is set (present and
    not the empty string) and the context's [jurisdiction] entry is not that
    string. *)
Lemma jurisdiction_skips_spec rule context :
  jurisdiction_skips rule context = true
  <-> exists j, jurisdiction rule = Some j /\ j <> ""
                /\ context !! "jurisdiction" <> Some (VStr j).
Proof.
  unfold jurisdiction_skips. destruct (jurisdiction rule) as [j|].
  - rewrite andb_true_iff, negb_true_iff. split.
    + intros [Hj Hne]. exists j. repeat split.
      * intros ->. discriminate.
      * intros E. rewrite E in Hne. simpl in Hne.
        by rewrite String.eqb_refl in Hne.
    + intros (j' & [= <-] & Hj & Hne). split.
      * by destruct j.
      * apply not_true_is_false. rewrite py_eq_str. intros E. apply Hne.
        destruct (context !! "jurisdiction") as [v|]; simpl in E; by subst.
  - split; [discriminate | by intros (? & ? & _)].
Qed.

Lemma validate_action_inv a :
  validate_action a = true ->
  a = "GRANT_YES" \/ a = "GRANT_NO" \/ a = "NO_DECISION".
Proof.
  unfold validate_action, valid_actions. simpl.
  destruct (String.eqb_spec a "GRANT_YES"); [auto|].
  destruct (String.eqb_spec a "GRANT_NO"); [auto|].
  destruct (String.eqb_spec a "NO_DECISION"); [auto|]. discriminate.
Qed.

Lemma _load_rules_valid rules_data rule :
  In rule (_load_rules rules_data) -> validate_action (action rule) = true.
Proof. unfold _load_rules. intros Hin. by apply List.filter_In in Hin as [_ ?]. Qed.

Lemma entries_app context l1 l2 :
  entries context (l1 ++ l2) = (entries context l1 ++ entries context l2)%list.
Proof. unfold entries. by rewrite List.filter_app, List.map_app. Qed.

(** Rules that do not fire only extend the chain. *)
Lemma evaluate_loop_skip context pre rest chain :
  Forall (fun r => rule_fires context r = false) pre ->
  evaluate_loop (pre ++ rest) context chain
  = evaluate_loop rest context (chain ++ entries context pre)%list.
Proof.
  intros Hpre. revert chain.
  induction Hpre as [|r pre Hr _ IH]; intros chain.
  - unfold entries. simpl. by rewrite List.app_nil_r.
  - simpl. unfold rule_fires in Hr. unfold entries. simpl.
    destruct (jurisdiction_skips r context); simpl in *.
    + apply IH.
    + rewrite Hr. rewrite IH. unfold entries.
      by rewrite <- List.app_assoc.
Qed.

(** A firing rule with a valid action ends the loop. *)
Lemma evaluate_loop_fire context rule post chain :
  rule_fires context rule = true ->
  validate_action (action rule) = true ->
  evaluate_loop (rule :: post) context chain
  = (if String.eqb (action rule) "GRANT_YES" then "YES" else "NO",
     (chain ++ entries context [rule])%list).
Proof.
  intros Hf Hv. unfold rule_fires in Hf. apply andb_true_iff in Hf as [Hj Hm].
  apply negb_true_iff in Hj. unfold entries. simpl. rewrite Hj, Hm. simpl.
  destruct (validate_action_inv _ Hv) as [-> | [-> | ->]]; reflexivity.
Qed.

(** C3. On the loaded rule list, [evaluate] returns the verdict of the first
    rule, in configured order, that its jurisdiction filter lets through and
    whose condition group matches: YES for GRANT_YES, NO for GRANT_NO and
    for NO_DECISION.  The rules after it are not evaluated: the reasoning
    chain holds the entries of the rules up to and including it, and the
    result is that of the list cut after it.  When no rule fires the verdict
    is NO. *)
Theorem evaluate_first_match (rules_data : list Rule) (context : dict) :
  let rules := _load_rules rules_data in
  (forall pre rule post,
     rules = (pre ++ rule :: post)%list ->
     Forall (fun r => rule_fires context r = false) pre ->
     rule_fires context rule = true ->
     (action rule = "GRANT_YES" \/ action rule = "GRANT_NO"
      \/ action rule = "NO_DECISION")
     /\ (action rule = "GRANT_YES" -> fst (evaluate rules context) = "YES")
     /\ (action rule = "GRANT_NO" -> fst (evaluate rules context) = "NO")
     /\ (action rule = "NO_DECISION" -> fst (evaluate rules context) = "NO")
     /\ snd (evaluate_loop rules context [])
        = entries context (pre ++ [rule])
     /\ evaluate rules context = evaluate (pre ++ [rule]) context)
  /\ (Forall (fun r => rule_fires context r = false) rules ->
      fst (evaluate rules context) = "NO").
Proof.
  intros rules. split.
  - intros pre rule post Hsplit Hpre Hfire.
    assert (validate_action (action rule) = true) as Hv.
    { apply (_load_rules_valid rules_data). fold rules. rewrite Hsplit.
      apply List.in_or_app. right. by left. }
    assert (evaluate_loop rules context []
            = (if String.eqb (action rule) "GRANT_YES" then "YES" else "NO",
               entries context (pre ++ [rule]))) as Hloop.
    { rewrite Hsplit, (evaluate_loop_skip _ _ _ _ Hpre).
      rewrite (evaluate_loop_fire _ _ _ _ Hfire Hv).
      by rewrite entries_app. }
    assert (evaluate_loop (pre ++ [rule]) context []
            = (if String.eqb (action rule) "GRANT_YES" then "YES" else "NO",
               entries context (pre ++ [rule]))) as Hcut.
    { rewrite (evaluate_loop_skip _ _ _ _ Hpre).
      rewrite (evaluate_loop_fire _ _ _ _ Hfire Hv).
      by rewrite entries_app. }
    split; [by apply validate_action_inv|].
    unfold evaluate. rewrite Hloop, Hcut. simpl.
    repeat split; try (intros ->; reflexivity).
  - intros Hall. unfold evaluate.
    pose proof (evaluate_loop_skip context rules [] [] Hall) as E.
    rewrite List.app_nil_r in E. rewrite E. reflexivity.
Qed.

Lemma and_matched_iff conds context :
  matched (_evaluate_and_conditions conds context) = true
  <-> Forall (fun c => matched (_evaluate_condition c context) = true) conds.
Proof.
  induction conds as [|c rest IH]; simpl.
  - split; [constructor | done].
  - destruct (matched (_evaluate_condition c context)) eqn:E; simpl.
    + rewrite IH. split; [by constructor | by inversion 1].
    + rewrite E. split; [done | inversion 1; congruence].
Qed.

Lemma and_first_failure conds context pre c post :
  conds = (pre ++ c :: post)%list ->
  Forall (fun c => matched (_evaluate_condition c context) = true) pre ->
  matched (_evaluate_condition c context) = false ->
  _evaluate_and_conditions conds context = _evaluate_condition c context.
Proof.
  intros -> Hpre Hc. induction Hpre as [|p pre Hp _ IH]; simpl.
  - by rewrite Hc.
  - by rewrite Hp.
Qed.

Lemma or_matched_iff conds context :
  matched (_evaluate_or_conditions conds context) = true
  <-> Exists (fun c => matched (_evaluate_condition c context) = true) conds.
Proof.
  induction conds as [|c rest IH]; simpl.
  - split; [done | inversion 1].
  - destruct (matched (_evaluate_condition c context)) eqn:E; simpl.
    + rewrite E. split; [by left | done].
    + rewrite IH. split; [by right | inversion 1; [congruence | done]].
Qed.

Lemma or_first_match conds context pre c post :
  conds = (pre ++ c :: post)%list ->
  Forall (fun c => matched (_evaluate_condition c context) = false) pre ->
  matched (_evaluate_condition c context) = true ->
  _evaluate_or_conditions conds context = _evaluate_condition c context.
Proof.
  intros -> Hpre Hc. induction Hpre as [|p pre Hp _ IH]; simpl.
  - by rewrite Hc.
  - by rewrite Hp.
Qed.

(** C8, as the code has it.  For a rule without pass/fail reason templates:
    its AND group matches exactly when every leaf matches, and when it fails
    the rule's reason is built from the reason of the first failing leaf;
    a rule that has no AND group is judged by its OR group, which matches
    exactly when some leaf matches, and when it matches the group evaluation
    returns the result of the first matching leaf while the rule's reason is
    the fixed text naming the rule; a leaf whose fact is absent from the
    context does not match and its reason says the fact was not found. *)
Theorem condition_group_semantics (rule : Rule) (context : dict) :
  reason_pass rule = None -> reason_fail rule = None ->
  (forall conds,
     conditions rule !! "AND" = Some conds ->
     (matched (_evaluate_rule rule context) = true
      <-> Forall (fun c => matched (_evaluate_condition c context) = true) conds)
     /\ (forall pre c post,
           conds = (pre ++ c :: post)%list ->
           Forall (fun c => matched (_evaluate_condition c context) = true) pre ->
           matched (_evaluate_condition c context) = false ->
           _evaluate_rule rule context
           = {| matched := false;
                reason := "AND condition failed: "
                          +:+ reason (_evaluate_condition c context) |}))
  /\ (forall conds,
        conditions rule !! "AND" = None ->
        conditions rule !! "OR" = Some conds ->
        (matched (_evaluate_rule rule context) = true
         <-> Exists (fun c => matched (_evaluate_condition c context) = true) conds)
        /\ (forall pre c post,
              conds = (pre ++ c :: post)%list ->
              Forall (fun c => matched (_evaluate_condition c context) = false) pre ->
              matched (_evaluate_condition c context) = true ->
              _evaluate_or_conditions conds context = _evaluate_condition c context
              /\ _evaluate_rule rule context
                 = {| matched := true;
                      reason := "OR condition passed for rule '"
                                +:+ name rule +:+ "'" |}))
  /\ (forall c,
        context !! fact c = None ->
        _evaluate_condition c context
        = {| matched := false;
             reason := "Fact '" +:+ fact c +:+ "' not found in context" |}).
Proof.
  intros Hpass Hfail. repeat apply conj.
  - intros conds Hand. split.
    + unfold _evaluate_rule. rewrite Hand, <- and_matched_iff.
      by destruct (matched (_evaluate_and_conditions conds context)).
    + intros pre c post Hsplit Hpre Hc.
      unfold _evaluate_rule.
      rewrite Hand, (and_first_failure _ _ _ _ _ Hsplit Hpre Hc), Hc, Hfail.
      reflexivity.
  - intros conds Hand Hor. split.
    + unfold _evaluate_rule. rewrite Hand, Hor, <- or_matched_iff.
      by destruct (matched (_evaluate_or_conditions conds context)).
    + intros pre c post Hsplit Hpre Hc.
      pose proof (or_first_match _ _ _ _ _ Hsplit Hpre Hc) as E.
      split; [exact E|].
      unfold _evaluate_rule. rewrite Hand, Hor, E, Hc, Hpass. reflexivity.
  - intros c Hfact. unfold _evaluate_condition. by rewrite Hfact.
Qed.

(** No operator name passes [validate_operator] and also reaches one of the
    two branches of [_evaluate_condition] that compare with [>=] or [<=]. *)
Lemma validated_operator_never_compares_or_equal op :
  validate_operator op = true ->
  op <> "GREATER_THAN_OR_EQUAL_TO" /\ op <> "LESS_THAN_OR_EQUAL_TO".
Proof. intros Hv. split; intros ->; discriminate Hv. Qed.

(** C4, at the inputs where the code departs from it.  With the fact [age]
    present and equal to 20, a condition [age >= 18] does not match under
    the name GREATER_THAN_OR_EQUAL, which the validator also rejects, nor
    under the name GREATER_THAN_EQUAL that the validator accepts: the
    evaluator reports an unknown operator.  Only the name
    GREATER_THAN_OR_EQUAL_TO, which the validator rejects, compares.  The
    same holds for the three names of [<=]. *)
Theorem or_equal_operators_diverge :
  let context : dict := <["age" := VInt 20]> ∅ in
  let ge := fun op => mkCondition "age" op (VInt 18) in
  let le := fun op => mkCondition "age" op (VInt 20) in
  py_ord OpGe (VInt 20) (VInt 18) = Val true
  /\ py_ord OpLe (VInt 20) (VInt 20) = Val true
  /\ validate_operator "GREATER_THAN_OR_EQUAL" = false
  /\ validate_operator "LESS_THAN_OR_EQUAL" = false
  /\ _evaluate_condition (ge "GREATER_THAN_OR_EQUAL") context
     = {| matched := false; reason := "Unknown operator: GREATER_THAN_OR_EQUAL" |}
  /\ _evaluate_condition (le "LESS_THAN_OR_EQUAL") context
     = {| matched := false; reason := "Unknown operator: LESS_THAN_OR_EQUAL" |}
  /\ validate_operator "GREATER_THAN_EQUAL" = true
  /\ validate_operator "LESS_THAN_EQUAL" = true
  /\ _evaluate_condition (ge "GREATER_THAN_EQUAL") context
     = {| matched := false; reason := "Unknown operator: GREATER_THAN_EQUAL" |}
  /\ _evaluate_condition (le "LESS_THAN_EQUAL") context
     = {| matched := false; reason := "Unknown operator: LESS_THAN_EQUAL" |}
  /\ validate_operator "GREATER_THAN_OR_EQUAL_TO" = false
  /\ validate_operator "LESS_THAN_OR_EQUAL_TO" = false
  /\ matched (_evaluate_condition (ge "GREATER_THAN_OR_EQUAL_TO") context) = true
  /\ matched (_evaluate_condition (le "LESS_THAN_OR_EQUAL_TO") context) = true.
Proof. repeat split; vm_compute; reflexivity. Qed.

End RuleFacts.

(** ** Credentials and request integrity *)

Section CredentialFacts.
Import Security Engine Endpoints.
Context `{Platform}.

Lemma existsb_eqb_singleton a : existsb (String.eqb a) [a] = true.
Proof. simpl. by rewrite String.eqb_refl. Qed.


Lemma validate_claims_stamped (claims : dict) now iat exp :
  claims !! "iat" = Some (VInt iat) -> claims !! "exp" = Some (VInt exp) ->
  claims !! "nbf" = None -> claims !! "aud" = None ->
  validate_claims claims now
  = if now <? iat then Raises InvalidTokenError
    else if exp <=? now then Raises ExpiredSignatureError
    else Claims claims.
Proof.
  intros Hiat Hexp Hnbf Haud.
  unfold validate_claims, validate_iat, validate_nbf, validate_exp,
    validate_aud, not_in_future.
  rewrite Hiat, Hexp, Hnbf, Haud. cbn [py_int].
  destruct (now <? iat); [done|]. by destruct (exp <=? now).
Qed.

Lemma verify_token_stamped s now (payload : dict) iat exp :
  payload !! "iat" = Some (VInt iat) -> payload !! "exp" = Some (VInt exp) ->
  payload !! "nbf" = None -> payload !! "aud" = None ->
  verify_token s now (jwt_encode payload (jwt_secret s) (jwt_algorithm s))
  = if now <? iat then ValueError "Invalid token"
    else if exp <=? now then ValueError "Token has expired"
    else Payload payload.
Proof.
  intros Hiat Hexp Hnbf Haud. unfold verify_token, jwt_encode, jwt_decode.
  rewrite existsb_eqb_singleton, String.eqb_refl. cbn [negb].
  rewrite (validate_claims_stamped _ _ _ _ Hiat Hexp Hnbf Haud).
  destruct (now <? iat); [done|]. by destruct (exp <=? now).
Qed.

(** What verifying an issued token gives at every instant. *)
Lemma verify_issued_at s env request verdict reasoning now :
  verify_token s now (issue_token s env request verdict reasoning)
  = if now <? utcnow env then ValueError "Invalid token"
    else if utcnow env + jwt_expiry_hours s * 3600 <=? now
    then ValueError "Token has expired"
    else Payload (issued_claims s env request verdict reasoning).
Proof.
  unfold issued_claims, issue_token, generate_verifiable_token.
  apply verify_token_stamped; reflexivity.
Qed.

(** An issued token verifies from its issue instant until it expires. *)
Lemma verify_issued s env request verdict reasoning now :
  utcnow env <= now < utcnow env + jwt_expiry_hours s * 3600 ->
  verify_token s now (issue_token s env request verdict reasoning)
  = Payload (issued_claims s env request verdict reasoning).
Proof.
  intros [Hiat Hexp]. rewrite verify_issued_at.
  destruct (Z.ltb_spec now (utcnow env)); [lia|].
  destruct (Z.leb_spec (utcnow env + jwt_expiry_hours s * 3600) now);
    [lia | done].
Qed.

(** A token issued for any verdict, verification id, reasoning string and
    request, verified under the same settings no earlier than the instant
    stamped into [iat] and before the one stamped into [exp], yields a claim
    set with the same verdict and verification id, whose [reasoning_hash] is
    the SHA-512 hex digest of the reasoning string. *)
Lemma token_round_trip (s : Settings) (env : Env)
    (request : VerificationRequest) (verdict reasoning : string) (now : Z) :
  utcnow env <= now < utcnow env + jwt_expiry_hours s * 3600 ->
  exists payload,
    verify_token s now (issue_token s env request verdict reasoning)
    = Payload payload
    /\ payload !! "verdict" = Some (VStr verdict)
    /\ payload !! "verification_id" = Some (VStr (uuid4 env))
    /\ payload !! "reasoning_hash" = Some (VStr (sha512_hexdigest reasoning)).
Proof.
  intros Hnow. exists (issued_claims s env request verdict reasoning).
  split; [by apply verify_issued|].
  repeat split; reflexivity.
Qed.

(** C9, where the code departs from it.  The round trip cannot be made
    through [process_request]: a request that is not answered at the gate,
    such as one without security answers, raises [NameError] where the
    credential would be issued.  And the issuing function stamps [iat] with
    [datetime.utcnow().timestamp()], which on a host west of UTC lies in the
    future by the host's offset: verifying the token under the same
    settings at the instant of issue, or at any instant less than the
    offset later, raises "Invalid token" instead of returning the claims. *)
Theorem token_round_trip_breaks (e : StatelessEngine) (env : Env)
    (sc j : string) (cid : option string) (s : Settings)
    (world : string -> Connectors.Source) (uuid : string)
    (request : VerificationRequest) (verdict reasoning : string)
    (utcoffset t now : Z) :
  fst (process_request e env (mkVerificationRequest sc j cid None))
  = Exc "name 'generate_verifiable_token' is not defined"
  /\ (utcoffset < 0 ->
      t <= now < t - utcoffset ->
      verify_token s now
        (issue_token s (mkEnv world uuid (utcnow_timestamp utcoffset t))
           request verdict reasoning)
      = ValueError "Invalid token").
Proof.
  split.
  - unfold process_request.
    assert (forall sd : dict,
              answers_rejected (mkVerificationRequest sc j cid None) sd = false)
      as -> by (intros sd; unfold answers_rejected; simpl;
                by rewrite andb_false_r).
    by destruct (_evaluate_rules e _).
  - intros Hwest Hnow. rewrite verify_issued_at. unfold utcnow_timestamp.
    simpl utcnow.
    destruct (Z.ltb_spec now (t - utcoffset)); [done | lia].
Qed.





End CredentialFacts.



Lemma token_round_trip_breaks_witness :
  let e := Engine.mkStatelessEngine Security.default_settings Demo.connectors
             (Rules._load_rules Demo.rules_data) in
  let issued := Engine.mkEnv Demo.world_mixed "6f1c2b9e" 1000 in
  let west :=
    Engine.mkEnv Demo.world_mixed "6f1c2b9e"
      (Security.utcnow_timestamp (-28800) 1000) in
  fst (@Engine.process_request Demo.platform e issued
         (Engine.mkVerificationRequest "ABC123" "UK" (Some "client-1") None))
  = Exc "name 'generate_verifiable_token' is not defined"
  /\ @Security.verify_token Demo.platform Security.default_settings 1000
       (@Engine.issue_token Demo.platform Security.default_settings west
          Demo.request "YES" "Rule 'adult': ok")
     = Security.ValueError "Invalid token".
Proof.
  intros e issued west.
  destruct (@token_round_trip_breaks Demo.platform e issued "ABC123" "UK"
              (Some "client-1") Security.default_settings Demo.world_mixed
              "6f1c2b9e" Demo.request "YES" "Rule 'adult': ok" (-28800) 1000
              1000) as [Hname Hwest].
  split; [exact Hname|]. apply Hwest; lia.
Defined.

Lemma token_round_trip_witness :
  let request := Engine.mkVerificationRequest "ABC123" "UK" (Some "client-1") None in
  let env := Engine.mkEnv (fun _ => Connectors.mkSource 0 (fun _ _ => (0, Connectors.HttpError "down")))
               "6f1c2b9e" 1000 in
  1000 <= 2000 < 1000 + 24 * 3600
  /\ exists payload,
       @Security.verify_token Demo.platform Security.default_settings 2000
         (@Engine.issue_token Demo.platform Security.default_settings env request
            "YES" "Rule 'adult': ok")
       = Security.Payload payload
       /\ payload !! "verdict" = Some (VStr "YES")
       /\ payload !! "verification_id" = Some (VStr "6f1c2b9e")
       /\ payload !! "reasoning_hash" = Some (VStr "sha512(Rule 'adult': ok)").
Proof.
  intros request env. split; [lia|].
  apply (@token_round_trip Demo.platform Security.default_settings env request
           "YES" "Rule 'adult': ok" 2000).
  simpl. lia.
Defined.

(** ** Orchestrator *)

Section EngineFacts.
Import Security Engine.
Context `{Platform}.

Lemma dict_truthy_false (d : dict) : dict_truthy d = false -> d = ∅.
Proof.
  unfold dict_truthy. intros Hd. apply negb_false_iff, Nat.eqb_eq in Hd.
  by apply map_size_empty_iff.
Qed.

Lemma assemble_context_lookup request (secure_data : dict) k :
  assemble_context request secure_data !! k
  = match secure_data !! k with
    | Some v => Some v
    | None =>
        (<["secure_code" := VStr (secure_code request)]>
         (<["jurisdiction" := VStr (jurisdiction request)]>
         (<["client_id" := opt_str (client_id request)]> (∅ : dict)))) !! k
    end.
Proof.
  unfold assemble_context. destruct (dict_truthy secure_data) eqn:Hd.
  - destruct (secure_data !! k) as [v|] eqn:E.
    + by apply lookup_union_Some_l.
    + by rewrite lookup_union_r.
  - apply dict_truthy_false in Hd. subst secure_data.
    by rewrite lookup_empty.
Qed.

(** C1, as the code has it.  After the context is assembled, each of
    [secure_code], [jurisdiction] and [client_id] holds the fetched
    attribute of that name when the fetched map defines one, and the value
    the request supplied otherwise. *)
Theorem context_identity_fields (request : VerificationRequest)
    (secure_data : dict) :
  let context := assemble_context request secure_data in
  context !! "secure_code"
  = Some (default (VStr (secure_code request)) (secure_data !! "secure_code"))
  /\ context !! "jurisdiction"
     = Some (default (VStr (jurisdiction request)) (secure_data !! "jurisdiction"))
  /\ context !! "client_id"
     = Some (default (opt_str (client_id request)) (secure_data !! "client_id")).
Proof.
  intros context. unfold context. rewrite !assemble_context_lookup.
  repeat split; by case_match.
Qed.

(** C1 as stated fails: fetched attributes named like the identity fields
    replace the values the request supplied. *)
Lemma context_identity_overwritten_counterexample :
  let request := mkVerificationRequest "ABC123" "UK" (Some "client-1") None in
  let fetched : dict :=
    <["secure_code" := VStr "XYZ999"]>
    (<["jurisdiction" := VStr "US"]>
    (<["client_id" := VStr "client-2"]>
    (<["eligibility_score" := VInt 750]> ∅))) in
  let context := assemble_context request fetched in
  context !! "secure_code" = Some (VStr "XYZ999")
  /\ context !! "secure_code" <> Some (VStr (secure_code request))
  /\ context !! "jurisdiction" = Some (VStr "US")
  /\ context !! "jurisdiction" <> Some (VStr (jurisdiction request))
  /\ context !! "client_id" = Some (VStr "client-2")
  /\ context !! "client_id" <> Some (opt_str (client_id request)).
Proof. repeat split; try reflexivity; vm_compute; discriminate. Qed.

Lemma strip_truthy a : str_truthy (strip a) = true -> str_truthy a = true.
Proof.
  destruct a; [|done]. by rewrite (strip_on_ascii "" eq_refl).
Qed.

Lemma _validate_security_answers_first field answer rest secure_data :
  valid (_validate_security_answers ((field, answer) :: rest) secure_data)
  = answer_accepted field answer secure_data.
Proof.
  unfold _validate_security_answers, answer_accepted.
  destruct (existsb (String.eqb field) valid_fields); [|done]. simpl.
  destruct (str_truthy (strip answer)) eqn:Hs.
  - rewrite (strip_truthy _ Hs). simpl.
    destruct (default (VStr "") (secure_data !! field)); try done.
    by destruct (String.eqb _ _).
  - simpl. by rewrite orb_true_r.
Qed.

Lemma answers_rejected_first request (secure_data : dict) field answer rest :
  dict_truthy secure_data = true ->
  security_answers request = Some ((field, answer) :: rest) ->
  answers_rejected request secure_data
  = negb (answer_accepted field answer secure_data).
Proof.
  intros Hd Ha.
  rewrite <- (_validate_security_answers_first field answer rest).
  unfold answers_rejected. rewrite Hd, Ha. reflexivity.
Qed.

Lemma answer_accepted_spec field answer (secure_data : dict) :
  answer_accepted field answer secure_data = true
  <-> In field valid_fields
      /\ strip answer <> ""
      /\ stored_answer secure_data field = Some (lower (strip answer)).
Proof.
  unfold answer_accepted, stored_answer.
  rewrite !andb_true_iff, List.existsb_exists.
  assert (str_truthy (strip answer) = true <-> strip answer <> "") as ->
    by (destruct (strip answer); simpl; split; congruence).
  split.
  - intros [[(x & Hin & Hx) Hs] Hm]. apply String.eqb_eq in Hx. subst x.
    repeat split; [done | done |].
    destruct (default (VStr "") (secure_data !! field)); try discriminate.
    apply String.eqb_eq in Hm. by rewrite Hm.
  - intros (Hin & Hs & Hm). repeat split; [|done|].
    + exists field. split; [done | apply String.eqb_refl].
    + destruct (default (VStr "") (secure_data !! field)); try discriminate.
      injection Hm as <-. apply String.eqb_refl.
Qed.

(** C5, as the code has it.  When the fetch returned at least one attribute
    and the request supplies answers: if the first provided pair names a
    field outside the enumerated set, or its answer is blank, or its
    trimmed, lower-cased answer is not the trimmed, lower-cased stored
    attribute, the request returns verdict NO with an empty token and an
    empty QR code and the rules are not evaluated; if it passes, the
    request goes on to evaluate the rules. *)
Theorem security_answers_gate (e : StatelessEngine) (env : Env)
    (request : VerificationRequest) (field answer : string)
    (rest : list (string * string)) :
  let secure_data := _fetch_secure_data e env (secure_code request) in
  dict_truthy secure_data = true ->
  security_answers request = Some ((field, answer) :: rest) ->
  (~ In field valid_fields
   \/ strip answer = ""
   \/ stored_answer secure_data field <> Some (lower (strip answer)) ->
   process_request e env request
   = (Val {| verdict := "NO"; jwt_token := NotJWT ""; qr_code := "" |}, O))
  /\ (In field valid_fields ->
      strip answer <> "" ->
      stored_answer secure_data field = Some (lower (strip answer)) ->
      snd (process_request e env request) = 1%nat).
Proof.
  intros secure_data Hd Ha. unfold process_request. cbv zeta.
  subst secure_data.
  set (secure_data := _fetch_secure_data e env (secure_code request)) in *.
  rewrite (answers_rejected_first _ _ _ _ _ Hd Ha).
  pose proof (answer_accepted_spec field answer secure_data) as Hspec.
  split.
  - intros Hbad.
    destruct (answer_accepted field answer secure_data); [|done].
    destruct Hspec as [Hspec _]. destruct (Hspec eq_refl) as (Hin & Hs & Hm).
    destruct Hbad as [Hbad | [Hbad | Hbad]]; contradiction.
  - intros Hin Hs Hm.
    destruct Hspec as [_ Hspec]. rewrite (Hspec (conj Hin (conj Hs Hm))).
    simpl. by destruct (_evaluate_rules e _).
Qed.

(** A request that is not answered at the gate evaluates the rules once and
    then raises: the issuing function is not bound in the module. *)
Lemma process_request_name_error e env request :
  answers_rejected request (_fetch_secure_data e env (secure_code request))
  = false ->
  process_request e env request
  = (Exc "name 'generate_verifiable_token' is not defined", 1%nat).
Proof.
  intros Hr. unfold process_request. rewrite Hr.
  by destruct (_evaluate_rules e _).
Qed.

End EngineFacts.

(** C5 as stated fails when the fetch returns the empty dictionary (no
    source configured, or every source failing): a request whose first
    answer names an unknown field, is blank, or is simply wrong is not
    answered NO at the gate.  The validator, asked directly, rejects the
    answer, yet the request goes on to evaluate the rules once. *)
Lemma answers_unchecked_without_data_counterexample :
  (forall (P : Platform) (env : Engine.Env),
     let e := Engine.new_engine Security.default_settings [] [] in
     let request :=
       Engine.mkVerificationRequest "ABC123" "UK" None
         (Some [("shoe_size", " ")]) in
     Engine._fetch_secure_data e env (Engine.secure_code request) = ∅
     /\ Engine.valid (Engine._validate_security_answers [("shoe_size", " ")] ∅)
        = false
     /\ Engine.answers_rejected request ∅ = false
     /\ snd (Engine.process_request e env request) = 1%nat
     /\ fst (Engine.process_request e env request)
        <> Val {| Engine.verdict := "NO"; Engine.jwt_token := NotJWT "";
                  Engine.qr_code := "" |})
  /\ (let e := Engine.mkStatelessEngine Security.default_settings
                 Demo.connectors (Rules._load_rules Demo.rules_data) in
      let env := Engine.mkEnv Demo.world_down "6f1c2b9e" 1000 in
      let request :=
        Engine.mkVerificationRequest "ABC123" "UK" None
          (Some [("first_pet_name", "Rex")]) in
      @Engine._fetch_secure_data Demo.platform e env "ABC123" = ∅
      /\ Engine.valid
           (@Engine._validate_security_answers Demo.platform
              [("first_pet_name", "Rex")] ∅)
         = false
      /\ @Engine.process_request Demo.platform e env request
         = (Exc "name 'generate_verifiable_token' is not defined", 1%nat)).
Proof.
  split.
  - intros P env e request.
    assert (Engine._fetch_secure_data e env (Engine.secure_code request) = ∅)
      as Hf by reflexivity.
    assert (Engine.answers_rejected request ∅ = false) as Hr by reflexivity.
    split; [exact Hf|]. split; [reflexivity|]. split; [exact Hr|].
    rewrite process_request_name_error by (by rewrite Hf).
    split; [reflexivity | discriminate].
  - repeat split; vm_compute; reflexivity.
Qed.

(** ** The program run on the sample configuration *)

Example demo_fetch_mixed :
  fst (fst (@Connectors.fetch_secure_data Demo.platform "ABC123"
              Demo.world_mixed Demo.connectors))
  = Demo.ledger_body ∪ Demo.registry_body.
Proof. vm_compute. reflexivity. Qed.

Example demo_fetch_attempts :
  snd (@Connectors.fetch_secure_data Demo.platform "ABC123"
         Demo.world_mixed Demo.connectors) = 5%nat.
Proof. vm_compute. reflexivity. Qed.

Example demo_evaluate :
  Rules.evaluate (Rules._load_rules Demo.rules_data) Demo.context
  = ("YES",
     "Rule 'tier': All OR conditions failed for rule 'tier' | Rule 'adult': All AND conditions passed for rule 'adult'").
Proof. vm_compute. reflexivity. Qed.

Example demo_evaluate_missing_fact :
  Rules.evaluate (Rules._load_rules Demo.rules_data) Demo.bare_context
  = ("NO",
     "Rule 'tier': All OR conditions failed for rule 'tier' | Rule 'adult': AND condition failed: Fact 'age' not found in context | Rule 'any_tier': All OR conditions failed for rule 'any_tier'").
Proof. vm_compute. reflexivity. Qed.

Example demo_fetch_down :
  Forall (fun e => @Connectors.source_attributes Demo.platform "ABC123"
                     Demo.world_down e = None) Demo.connectors
  /\ fst (fst (@Connectors.fetch_secure_data Demo.platform "ABC123"
                 Demo.world_down Demo.connectors)) = ∅.
Proof. split; [repeat constructor | vm_compute; reflexivity]. Qed.

Example demo_fetch_malformed :
  map (@Connectors.source_status Demo.platform "ABC123" Demo.world_malformed)
    Demo.connectors
  = map (fun _ => Connectors.Failed) Demo.connectors
  /\ fst (fst (@Connectors.fetch_secure_data Demo.platform "ABC123"
                 Demo.world_malformed Demo.connectors))
     = <["age" := VInt 20]> ∅.
Proof. split; vm_compute; reflexivity. Qed.

Lemma failed_source_contributes_witness :
  let ledger :=
    ("ledger",
     Connectors.new_connector (Demo.endpoint "https://ledger.test/{secure_code}")) in
  let out :=
    @Connectors.fetch_secure_data Demo.platform "ABC123" Demo.world_malformed
      [ledger] in
  @Connectors.source_status Demo.platform "ABC123" Demo.world_malformed ledger
  = Connectors.Failed
  /\ fst (fst out) = dict_literal [("age", VInt 20)]
  /\ snd out = 1%nat
  /\ fst (fst out) <> ∅.
Proof.
  intros ledger out.
  destruct (@failed_source_contributes Demo.platform "ABC123"
              Demo.world_malformed "ledger" "https://ledger.test/ABC123"
              (snd ledger) 0 [("age", VInt 20)] (Connectors.ItemInt 5) []
              eq_refl eq_refl ltac:(simpl; lia) eq_refl
              ltac:(intros k v; discriminate))
    as (Hfailed & Hres & Hmade & Hne).
  split; [exact Hfailed|]. split; [exact Hres|]. split; [exact Hmade|].
  apply Hne. discriminate.
Defined.

Lemma evaluate_first_match_witness :
  fst (Rules.evaluate (Rules._load_rules Demo.rules_data) Demo.context) = "YES"
  /\ snd (Rules.evaluate_loop (Rules._load_rules Demo.rules_data) Demo.context [])
     = Rules.entries Demo.context [Demo.us_rule; Demo.tier_rule; Demo.adult_rule]
  /\ fst (Rules.evaluate (Rules._load_rules Demo.rules_data) Demo.bare_context)
     = "NO".
Proof.
  destruct (evaluate_first_match Demo.rules_data Demo.context) as [Hfirst _].
  destruct (evaluate_first_match Demo.rules_data Demo.bare_context) as [_ Hnone].
  destruct (Hfirst [Demo.us_rule; Demo.tier_rule] Demo.adult_rule
              [Demo.any_tier_rule])
    as (_ & Hyes & _ & _ & Hchain & _).
  - reflexivity.
  - repeat constructor.
  - reflexivity.
  - split; [apply Hyes; reflexivity|]. split; [exact Hchain|].
    apply Hnone. repeat constructor.
Defined.

Lemma condition_group_semantics_witness :
  Rules._evaluate_rule Demo.adult_rule Demo.bare_context
  = {| Rules.matched := false;
       Rules.reason := "AND condition failed: Fact 'age' not found in context" |}
  /\ Rules._evaluate_rule Demo.any_tier_rule Demo.context
     = {| Rules.matched := true;
          Rules.reason := "OR condition passed for rule 'any_tier'" |}.
Proof.
  destruct (condition_group_semantics Demo.adult_rule Demo.bare_context
              eq_refl eq_refl) as (Hand & _ & Hleaf).
  destruct (condition_group_semantics Demo.any_tier_rule Demo.context
              eq_refl eq_refl) as (_ & Hor & _).
  split.
  - destruct (Hand [Rules.mkCondition "age" "GREATER_THAN" (VInt 18)] eq_refl)
      as [_ Hfail].
    rewrite (Hfail [] (Rules.mkCondition "age" "GREATER_THAN" (VInt 18)) []
               eq_refl (List.Forall_nil _) eq_refl).
    rewrite (Hleaf (Rules.mkCondition "age" "GREATER_THAN" (VInt 18)) eq_refl).
    reflexivity.
  - destruct (Hor [Rules.mkCondition "verification_tier" "EQUALS" (VStr "gold");
                   Rules.mkCondition "verification_tier" "IN"
                     (VList [VStr "silver"; VStr "bronze"])] eq_refl eq_refl)
      as [_ Hfirst].
    apply (Hfirst [Rules.mkCondition "verification_tier" "EQUALS" (VStr "gold")]
             (Rules.mkCondition "verification_tier" "IN"
                (VList [VStr "silver"; VStr "bronze"])) []).
    + reflexivity.
    + repeat constructor.
    + reflexivity.
Defined.

(** C8 as stated fails for a matching OR group: the reason recorded for the
    rule is a fixed text, and the reason of the first matching leaf does not
    occur in it. *)
Lemma or_success_reason_counterexample :
  let leaf := Rules.mkCondition "verification_tier" "IN"
                (VList [VStr "silver"; VStr "bronze"]) in
  Rules.reason_pass Demo.any_tier_rule = None
  /\ Rules.reason_fail Demo.any_tier_rule = None
  /\ Rules._evaluate_or_conditions
       [Rules.mkCondition "verification_tier" "EQUALS" (VStr "gold"); leaf]
       Demo.context
     = Rules._evaluate_condition leaf Demo.context
  /\ Rules._evaluate_condition leaf Demo.context
     = {| Rules.matched := true;
          Rules.reason :=
            "Condition verification_tier IN ['silver', 'bronze'] = True" |}
  /\ Rules._evaluate_rule Demo.any_tier_rule Demo.context
     = {| Rules.matched := true;
          Rules.reason := "OR condition passed for rule 'any_tier'" |}
  /\ is_substring (Rules.reason (Rules._evaluate_condition leaf Demo.context))
       (Rules.reason (Rules._evaluate_rule Demo.any_tier_rule Demo.context))
     = false.
Proof. repeat split; vm_compute; reflexivity. Qed.

(** The sample sources seen through one connector. *)
Example demo_request_all_attempts_fail :
  Connectors._make_request
    (Connectors.new_connector (Demo.endpoint "https://bureau.test/{secure_code}"))
    (Demo.world_down "bureau") "https://bureau.test/ABC123" "GET"
  = (Connectors.Raised "All 3 attempts failed: connection refused",
     Connectors.mkDataConnector
       (Demo.endpoint "https://bureau.test/{secure_code}")
       (Breaker.mkCircuitBreaker 5 60 3 (Some 2) "CLOSED"),
     3%nat).
Proof. vm_compute. reflexivity. Qed.

Example demo_breaker_opens_on_second_fetch :
  let c0 :=
    Connectors.new_connector (Demo.endpoint "https://bureau.test/{secure_code}") in
  let run1 :=
    Connectors._make_request c0 (Demo.world_down "bureau")
      "https://bureau.test/ABC123" "GET" in
  let run2 :=
    Connectors._make_request (snd (fst run1)) (Demo.world_down "bureau")
      "https://bureau.test/ABC123" "GET" in
  let run3 :=
    Connectors._make_request (snd (fst run2)) (Demo.world_down "bureau")
      "https://bureau.test/ABC123" "GET" in
  Breaker.state (Connectors.circuit_breaker (snd (fst run2))) = "OPEN"
  /\ run3 = (Connectors.Raised "Circuit breaker is open", snd (fst run2), O).
Proof. split; vm_compute; reflexivity. Qed.

(** The sample token after its expiry, and with a forged signature. *)
Example demo_token_expired :
  @Security.verify_token Demo.platform Security.default_settings (1000 + 24 * 3600)
    (@Engine.issue_token Demo.platform Security.default_settings
       (Engine.mkEnv Demo.world_down "6f1c2b9e" 1000) Demo.request "YES" "ok")
  = Security.ValueError "Token has expired".
Proof. vm_compute. reflexivity. Qed.

Example demo_token_forged :
  @Security.verify_token Demo.platform Security.default_settings 2000
    (JWS "HS256" (<["verdict" := VStr "YES"]> ∅) "HS256/guess/verdict='YES'")
  = Security.ValueError "Invalid token"
  /\ @Security.verify_token Demo.platform Security.default_settings 2000 (NotJWT "")
     = Security.ValueError "Invalid token".
Proof. split; vm_compute; reflexivity. Qed.

Lemma security_answers_gate_witness :
  let e := Engine.mkStatelessEngine Security.default_settings Demo.connectors
             (Rules._load_rules Demo.rules_data) in
  let env := Engine.mkEnv Demo.world_mixed "6f1c2b9e" 1000 in
  let wrong :=
    Engine.mkVerificationRequest "ABC123" "UK" None
      (Some [("first_pet_name", "Rex")]) in
  let right :=
    Engine.mkVerificationRequest "ABC123" "UK" None
      (Some [("first_pet_name", "  FLUFFY "); ("shoe_size", "9")]) in
  @Engine.process_request Demo.platform e env wrong
  = (Val {| Engine.verdict := "NO"; Engine.jwt_token := NotJWT "";
            Engine.qr_code := "" |}, O)
  /\ snd (@Engine.process_request Demo.platform e env right) = 1%nat.
Proof.
  intros e env wrong right.
  pose proof (@security_answers_gate Demo.platform e env wrong
                "first_pet_name" "Rex" [] eq_refl eq_refl) as [Hno _].
  pose proof (@security_answers_gate Demo.platform e env right
                "first_pet_name" "  FLUFFY " [("shoe_size", "9")]
                eq_refl eq_refl) as [_ Hgo].
  split.
  - apply Hno. right. right. vm_compute. discriminate.
  - apply Hgo.
    + vm_compute. tauto.
    + vm_compute. discriminate.
    + vm_compute. reflexivity.
Defined.

(** * Further properties of the fetch layer *)

Section BreakerMore.
Import Breaker.

Lemma reachable_count_inv threshold tmo cb :
  0 < threshold -> reachable threshold tmo cb ->
  failure_threshold cb = threshold
  /\ 0 <= failure_count cb
  /\ (state cb = "CLOSED" -> failure_count cb < threshold).
Proof.
  intros Hpos. induction 1 as [|cb c _ IH].
  - simpl. repeat split; lia.
  - destruct IH as (Hth & Hge & Hcl). destruct c as [now| |now]; simpl.
    + rewrite record_failure_threshold, record_failure_count,
        record_failure_state, Hth.
      split; [done|]. split; [lia|].
      case_match eqn:E; [discriminate|]. intros _. apply Z.leb_gt in E. lia.
    + repeat split; [done | lia | lia].
    + destruct (can_execute_fields now cb) as (E1 & E2 & E3).
      rewrite E1, E2. split; [done|]. split; [done|].
      destruct (can_execute_state now cb) as [E | [_ E]]; rewrite E.
      * exact Hcl.
      * discriminate.
Qed.

(** X1. With a positive threshold, a breaker obtained from a fresh one by
    any calls has a failure count that is never negative, and it is CLOSED
    exactly when that count is below the threshold. *)
Theorem breaker_closed_iff_below_threshold (threshold tmo : Z)
    (cb : CircuitBreaker) :
  0 < threshold -> reachable threshold tmo cb ->
  0 <= failure_count cb
  /\ (state cb = "CLOSED" <-> failure_count cb < failure_threshold cb).
Proof.
  intros Hpos Hr.
  destruct (reachable_count_inv _ _ _ Hpos Hr) as (Hth & Hge & Hcl).
  destruct (reachable_inv _ _ _ Hr) as (_ & _ & Hopen).
  split; [exact Hge|]. rewrite Hth. split; [exact Hcl|].
  intros Hlt. destruct (String.eqb_spec (state cb) "CLOSED") as [|Hne]; [done|].
  destruct (Hopen Hne) as [Hle _]. lia.
Qed.

Lemma breaker_closed_iff_below_threshold_witness :
  let cb :=
    apply_call RecordSuccess
      (apply_call (CanExecute 70000000)
        (apply_call (RecordFailure 2) (apply_call (RecordFailure 1) (init 2 60)))) in
  0 <= failure_count cb
  /\ (state cb = "CLOSED" <-> failure_count cb < failure_threshold cb).
Proof.
  intros cb. apply (breaker_closed_iff_below_threshold 2 60 cb); [lia|].
  unfold cb. do 4 apply reach_step. apply reach_init.
Defined.

Lemma can_execute_half_open now cb :
  state cb = "HALF_OPEN" -> can_execute now cb = (true, cb).
Proof. intros Hs. unfold can_execute. by rewrite Hs. Qed.

(** X2. A HALF_OPEN breaker admits every call, not just one: however many
    times [can_execute] is asked, at whatever instants, it answers true and
    the breaker stays as it is until a success or failure is recorded. *)
Theorem half_open_admits_every_call (cb : CircuitBreaker) (nows : list Z) :
  state cb = "HALF_OPEN" ->
  Forall (fun now => can_execute now cb = (true, cb)) nows
  /\ run (map CanExecute nows) cb = cb.
Proof.
  intros Hs. split.
  - apply List.Forall_forall. intros now _. by apply can_execute_half_open.
  - induction nows as [|now nows IH]; [done|].
    unfold run in *. simpl. by rewrite (can_execute_half_open now cb Hs).
Qed.

Lemma half_open_admits_every_call_witness :
  let cb := mkCircuitBreaker 5 60 5 (Some 5) "HALF_OPEN" in
  Forall (fun now => can_execute now cb = (true, cb)) [6; 7; 8]
  /\ run (map CanExecute [6; 7; 8]) cb = cb.
Proof.
  intros cb. apply (half_open_admits_every_call cb [6; 7; 8]). reflexivity.
Defined.

End BreakerMore.

Section RequestMore.
Import Breaker Connectors.

Lemma attempts_returned_body cfg req src range cb made body cb' made' :
  attempts cfg req src range cb made = (Returned (Some body), cb', made') ->
  state cb' = "CLOSED" /\ failure_count cb' = 0 /\ (made < made')%nat.
Proof.
  revert cb made. induction range as [|a range IH]; intros cb made; simpl.
  - discriminate.
  - destruct (respond src req (Z.to_nat a)) as [t [b|msg|msg]].
    + intros [= <- <- <-]. simpl. repeat split. lia.
    + destruct (a =? retries cfg - 1); [discriminate|].
      intros Hr. apply IH in Hr as (? & ? & ?). repeat split; [done|done|lia].
    + destruct (a =? retries cfg - 1); [discriminate|].
      intros Hr. apply IH in Hr as (? & ? & ?). repeat split; [done|done|lia].
Qed.

(** X3. Whenever [_make_request] returns a body, whatever happened before
    and however many attempts failed first, the connector's breaker is left
    CLOSED with a failure count of 0, its configuration is untouched, and at
    least one network attempt was made. *)
Theorem successful_request_closes_breaker (c c' : DataConnector) (src : Source)
    (u m : string) (body : json) (made : nat) :
  _make_request c src u m = (Returned (Some body), c', made) ->
  state (circuit_breaker c') = "CLOSED"
  /\ failure_count (circuit_breaker c') = 0
  /\ config c' = config c
  /\ (1 <= made)%nat.
Proof.
  unfold _make_request.
  destruct (can_execute (call_time src) (circuit_breaker c)) as [ok cb].
  destruct ok; simpl; [|discriminate].
  destruct (attempts _ _ _ _ _ _) as [[out cb1] made1] eqn:E.
  intros [= -> <- <-]. simpl.
  apply attempts_returned_body in E as (? & ? & ?).
  repeat split; [done | done | lia].
Qed.

Lemma successful_request_closes_breaker_witness :
  let c :=
    mkDataConnector (Demo.endpoint "https://ledger.test/{secure_code}")
      (mkCircuitBreaker 5 60 4 (Some 1) "CLOSED") in
  let src := mkSource 10 (fun _ i =>
               (Z.of_nat i,
                if Nat.eqb i 2 then HttpOk (JObject Demo.ledger_body)
                else HttpError "timeout")) in
  let c' := snd (fst (_make_request c src "https://ledger.test/ABC123" "GET")) in
  state (circuit_breaker c') = "CLOSED"
  /\ failure_count (circuit_breaker c') = 0
  /\ config c' = config c
  /\ (1 <= 3)%nat.
Proof.
  intros c src c'.
  apply (successful_request_closes_breaker c c' src
           "https://ledger.test/ABC123" "GET" (JObject Demo.ledger_body) 3).
  vm_compute. reflexivity.
Defined.

Lemma attempts_made_bound cfg req src range cb made :
  (snd (attempts cfg req src range cb made) <= made + length range)%nat.
Proof.
  revert cb made. induction range as [|a range IH]; intros cb made; simpl.
  - lia.
  - destruct (respond src req (Z.to_nat a)) as [t [b|msg|msg]]; simpl.
    + lia.
    + destruct (a =? retries cfg - 1); simpl; [lia|].
      etransitivity; [apply IH|]. lia.
    + destruct (a =? retries cfg - 1); simpl; [lia|].
      etransitivity; [apply IH|]. lia.
Qed.

Lemma _make_request_made_le c src u m :
  (snd (_make_request c src u m) <= Z.to_nat (retries (config c)))%nat.
Proof.
  unfold _make_request.
  destruct (can_execute (call_time src) (circuit_breaker c)) as [ok cb].
  destruct ok; simpl; [|lia].
  pose proof (attempts_made_bound (config c)
                {| req_method := m; req_url := u;
                   req_headers := auth_headers (config c) |}
                src (seqZ 0 (retries (config c))) cb O) as Hb.
  destruct (attempts _ _ _ _ _ _) as [[out cb1] made1]. simpl in *.
  by rewrite length_seqZ in Hb.
Qed.

End RequestMore.

Section RetryMore.
Import Breaker Connectors.

Lemma attempts_all_errors cfg req src (msgs : nat -> string) (len : nat) :
  forall (k : Z) cb made,
  0 <= k -> k + Z.of_nat (S len) = retries cfg ->
  (forall i, (i < Z.to_nat (retries cfg))%nat ->
             snd (respond src req i) = HttpError (msgs i)) ->
  exists cb',
    attempts cfg req src (seqZ k (Z.of_nat (S len))) cb made
    = (Raised ("All " +:+ pretty (retries cfg) +:+ " attempts failed: "
               +:+ msgs (Z.to_nat (retries cfg - 1))),
       cb', (made + S len)%nat)
    /\ failure_threshold cb' = failure_threshold cb
    /\ failure_count cb' = failure_count cb + Z.of_nat (S len)
    /\ last_failure_time cb'
       = Some (fst (respond src req (Z.to_nat (retries cfg - 1))))
    /\ state cb'
       = if failure_threshold cb <=? failure_count cb + Z.of_nat (S len)
         then "OPEN" else state cb.
Proof.
  induction len as [|len IH]; intros k cb made Hk Hsum Herr.
  - assert (k = retries cfg - 1) as -> by lia.
    change (Z.of_nat 1) with 1. rewrite (seqZ_cons _ 1) by lia. simpl.
    pose proof (Herr (Z.to_nat (retries cfg - 1)) ltac:(lia)) as E.
    destruct (respond src req (Z.to_nat (retries cfg - 1))) as [t r].
    simpl in E. subst r. rewrite Z.eqb_refl.
    eexists. split; [f_equal; f_equal; lia|].
    rewrite record_failure_threshold, record_failure_count,
      record_failure_last, record_failure_state. done.
  - rewrite (seqZ_cons _ (Z.of_nat (S (S len)))) by lia.
    replace (Z.pred (Z.of_nat (S (S len)))) with (Z.of_nat (S len)) by lia.
    simpl attempts.
    pose proof (Herr (Z.to_nat k) ltac:(lia)) as E.
    destruct (respond src req (Z.to_nat k)) as [t r]. simpl in E. subst r.
    destruct (Z.eqb_spec k (retries cfg - 1)) as [|_]; [lia|].
    destruct (IH (Z.succ k) (record_failure t cb) (S made)
                ltac:(lia) ltac:(lia) Herr)
      as (cb' & Hrun & Hth & Hcount & Hlast & Hstate).
    exists cb'. split; [rewrite Hrun; f_equal; lia|].
    rewrite Hth, Hcount, Hlast, Hstate.
    rewrite record_failure_threshold, record_failure_count,
      record_failure_state.
    repeat split; [lia|].
    destruct (Z.leb_spec (failure_threshold cb)
                (failure_count cb + 1 + Z.of_nat (S len)));
      destruct (Z.leb_spec (failure_threshold cb)
                  (failure_count cb + Z.of_nat (S (S len))));
      try lia; [done|].
    destruct (Z.leb_spec (failure_threshold cb) (failure_count cb + 1));
      [lia | done].
Qed.

Lemma attempts_all_fail cfg req src (msgs : nat -> string)
    (undecodable : nat -> bool) (more : nat) :
  forall (k : Z) cb made,
  0 <= k -> k + Z.of_nat (S more) = retries cfg ->
  (forall i, (Z.to_nat k <= i < Z.to_nat (retries cfg))%nat ->
             snd (respond src req i)
             = if undecodable i then HttpBadBody (msgs i)
               else HttpError (msgs i)) ->
  exists cb',
    attempts cfg req src (seqZ k (Z.of_nat (S more))) cb made
    = (Raised ("All " +:+ pretty (retries cfg) +:+ " attempts failed: "
               +:+ msgs (Z.to_nat (retries cfg - 1))),
       cb', (made + S more)%nat)
    /\ failure_threshold cb' = failure_threshold cb
    /\ last_failure_time cb'
       = Some (fst (respond src req (Z.to_nat (retries cfg - 1))))
    /\ ((forall i, (Z.to_nat k <= i < Z.to_nat (retries cfg))%nat ->
                   undecodable i = false) ->
        failure_count cb' = failure_count cb + Z.of_nat (S more)
        /\ state cb'
           = if failure_threshold cb <=? failure_count cb + Z.of_nat (S more)
             then "OPEN" else state cb)
    /\ (forall j, (Z.to_nat k <= j < Z.to_nat (retries cfg))%nat ->
                  undecodable j = true ->
                  (forall i, (j < i < Z.to_nat (retries cfg))%nat ->
                             undecodable i = false) ->
        failure_count cb' = retries cfg - Z.of_nat j
        /\ state cb'
           = if failure_threshold cb <=? retries cfg - Z.of_nat j
             then "OPEN" else "CLOSED").
Proof.
  induction more as [|more IH]; intros k cb made Hk Hsum Hfail.
  - assert (k = retries cfg - 1) as -> by lia.
    change (Z.of_nat 1) with 1. rewrite (seqZ_cons _ 1) by lia. simpl.
    pose proof (Hfail (Z.to_nat (retries cfg - 1)) ltac:(lia)) as E.
    destruct (respond src req (Z.to_nat (retries cfg - 1))) as [t r].
    simpl in E. subst r. rewrite Z.eqb_refl.
    destruct (undecodable (Z.to_nat (retries cfg - 1))) eqn:Hu.
    + eexists. split; [f_equal; f_equal; lia|].
      rewrite record_failure_threshold, record_failure_count,
        record_failure_last, record_failure_state. simpl.
      split; [done|]. split; [done|]. split.
      * intros Hnone. rewrite Hnone in Hu by lia. discriminate.
      * intros j Hj _ _.
        replace (retries cfg - Z.of_nat j) with 1 by lia. done.
    + eexists. split; [f_equal; f_equal; lia|].
      rewrite record_failure_threshold, record_failure_count,
        record_failure_last, record_failure_state.
      split; [done|]. split; [done|]. split; [done|].
      intros j Hj Hbad _.
      assert (j = Z.to_nat (retries cfg - 1)) as -> by lia. congruence.
  - rewrite (seqZ_cons _ (Z.of_nat (S (S more)))) by lia.
    replace (Z.pred (Z.of_nat (S (S more)))) with (Z.of_nat (S more)) by lia.
    simpl attempts.
    pose proof (Hfail (Z.to_nat k) ltac:(lia)) as E.
    destruct (respond src req (Z.to_nat k)) as [t r]. simpl in E. subst r.
    assert (forall i, (Z.to_nat (Z.succ k) <= i < Z.to_nat (retries cfg))%nat ->
                      snd (respond src req i)
                      = if undecodable i then HttpBadBody (msgs i)
                        else HttpError (msgs i)) as Hfail'
      by (intros i Hi; apply Hfail; lia).
    destruct (undecodable (Z.to_nat k)) eqn:Hu.
    + destruct (Z.eqb_spec k (retries cfg - 1)) as [|_]; [lia|].
      destruct (IH (Z.succ k) (record_failure t (record_success cb)) (S made)
                  ltac:(lia) ltac:(lia) Hfail')
        as (cb' & Hrun & Hth & Hlast & Hnone & Hsome).
      assert (failure_threshold (record_failure t (record_success cb))
              = failure_threshold cb) as Ht
        by (by rewrite record_failure_threshold).
      rewrite Ht in Hnone, Hsome, Hth. clear Ht.
      exists cb'. split; [rewrite Hrun; f_equal; lia|].
      rewrite Hth, Hlast.
      split; [done|]. split; [done|]. split.
      * intros Hall. rewrite Hall in Hu by lia. discriminate.
      * intros j Hj Hbad Hlater.
        destruct (decide (j = Z.to_nat k)) as [->|Hne].
        -- destruct Hnone as [Hcount Hstate];
             [intros i Hi; apply Hlater; lia|].
           rewrite Hcount, Hstate.
           rewrite record_failure_count, record_failure_state. simpl.
           split; [lia|].
           destruct (Z.leb_spec (failure_threshold cb)
                       (0 + 1 + Z.of_nat (S more)));
             destruct (Z.leb_spec (failure_threshold cb)
                         (retries cfg - Z.of_nat (Z.to_nat k)));
             try lia; [done|].
           destruct (Z.leb_spec (failure_threshold cb) (0 + 1));
             [lia | done].
        -- apply Hsome; [lia | done | done].
    + destruct (Z.eqb_spec k (retries cfg - 1)) as [|_]; [lia|].
      destruct (IH (Z.succ k) (record_failure t cb) (S made)
                  ltac:(lia) ltac:(lia) Hfail')
        as (cb' & Hrun & Hth & Hlast & Hnone & Hsome).
      rewrite record_failure_threshold in Hnone, Hsome, Hth.
      exists cb'. split; [rewrite Hrun; f_equal; lia|].
      rewrite Hth, Hlast.
      split; [done|]. split; [done|]. split.
      * intros Hall.
        destruct Hnone as [Hcount Hstate];
          [intros i Hi; apply Hall; lia|].
        rewrite Hcount, Hstate.
        rewrite record_failure_count, record_failure_state.
        split; [lia|].
        destruct (Z.leb_spec (failure_threshold cb)
                    (failure_count cb + 1 + Z.of_nat (S more)));
          destruct (Z.leb_spec (failure_threshold cb)
                      (failure_count cb + Z.of_nat (S (S more))));
          try lia; [done|].
        destruct (Z.leb_spec (failure_threshold cb) (failure_count cb + 1));
          [lia | done].
      * intros j Hj Hbad Hlater.
        destruct (decide (j = Z.to_nat k)) as [->|Hne]; [congruence|].
        apply Hsome; [lia | done | done].
Qed.

(** X4. When the breaker lets a call through and every attempt fails, the
    request raising or the body not decoding, [_make_request] makes exactly
    as many network attempts as there are retries (the breaker opening
    part-way does not cut them short), raises with the message of the last
    failure and stamps its time.  When every attempt raised in the request,
    that many failures are added to the breaker, which is left OPEN if the
    count has reached the threshold and in its previous state otherwise.
    An undecodable body is counted as a success first and as a failure
    next: the count then ends at the number of attempts from the last such
    body on, and the breaker is OPEN if that number has reached the
    threshold and CLOSED otherwise. *)
Theorem failed_attempts_exhaust_retries (c : DataConnector) (src : Source)
    (u m : string) (msgs : nat -> string) (undecodable : nat -> bool) :
  let cb0 := snd (can_execute (call_time src) (circuit_breaker c)) in
  let req := {| req_method := m; req_url := u;
                req_headers := auth_headers (config c) |} in
  let n := retries (config c) in
  fst (can_execute (call_time src) (circuit_breaker c)) = true ->
  1 <= n ->
  (forall i, (i < Z.to_nat n)%nat ->
             snd (respond src req i)
             = if undecodable i then HttpBadBody (msgs i)
               else HttpError (msgs i)) ->
  exists c',
    _make_request c src u m
    = (Raised ("All " +:+ pretty n +:+ " attempts failed: "
               +:+ msgs (Z.to_nat (n - 1))), c', Z.to_nat n)
    /\ config c' = config c
    /\ last_failure_time (circuit_breaker c')
       = Some (fst (respond src req (Z.to_nat (n - 1))))
    /\ ((forall i, (i < Z.to_nat n)%nat -> undecodable i = false) ->
        failure_count (circuit_breaker c') = failure_count cb0 + n
        /\ state (circuit_breaker c')
           = if failure_threshold cb0 <=? failure_count cb0 + n
             then "OPEN" else state cb0)
    /\ (forall j, (j < Z.to_nat n)%nat ->
                  undecodable j = true ->
                  (forall i, (j < i < Z.to_nat n)%nat -> undecodable i = false) ->
        failure_count (circuit_breaker c') = n - Z.of_nat j
        /\ state (circuit_breaker c')
           = if failure_threshold cb0 <=? n - Z.of_nat j
             then "OPEN" else "CLOSED").
Proof.
  intros cb0 req n Hok Hn Hfail. unfold _make_request.
  subst cb0.
  destruct (can_execute (call_time src) (circuit_breaker c)) as [ok cb].
  simpl in *. subst ok. simpl.
  destruct (attempts_all_fail (config c) req src msgs undecodable
              (Z.to_nat n - 1) 0 cb O ltac:(lia) ltac:(fold n; lia)
              ltac:(intros i Hi; apply Hfail; fold n in Hi; lia))
    as (cb' & Hrun & Hth & Hlast & Hnone & Hsome).
  replace (Z.of_nat (S (Z.to_nat n - 1))) with n in * by lia.
  fold req. fold n. rewrite Hrun.
  eexists. split; [f_equal; lia|]. simpl.
  split; [done|]. split; [exact Hlast|]. split.
  - intros Hall. apply Hnone. intros i Hi. apply Hall. fold n in Hi. lia.
  - intros j Hj Hbad Hlater. fold n in Hsome.
    apply Hsome; [lia | done | done].
Qed.

Lemma failed_attempts_exhaust_retries_witness :
  let c :=
    mkDataConnector
      (mkEndpointConfig "https://bureau.test/{secure_code}" "GET" "none" None 30 7)
      Breaker.default in
  let truncated :=
    mkSource 0 (fun _ i =>
      (Z.of_nat i,
       if Nat.eqb i 4 then HttpBadBody "Expecting value: line 1 column 1 (char 0)"
       else HttpError "connection refused")) in
  (exists c',
     _make_request c (Demo.world_down "bureau") "https://bureau.test/ABC123" "GET"
     = (Raised "All 7 attempts failed: connection refused", c', 7%nat)
     /\ failure_count (circuit_breaker c') = 7
     /\ last_failure_time (circuit_breaker c') = Some 6
     /\ state (circuit_breaker c') = "OPEN")
  /\ (exists c',
        _make_request c truncated "https://bureau.test/ABC123" "GET"
        = (Raised "All 7 attempts failed: connection refused", c', 7%nat)
        /\ failure_count (circuit_breaker c') = 3
        /\ last_failure_time (circuit_breaker c') = Some 6
        /\ state (circuit_breaker c') = "CLOSED").
Proof.
  intros c truncated. split.
  - destruct (failed_attempts_exhaust_retries c (Demo.world_down "bureau")
                "https://bureau.test/ABC123" "GET"
                (fun _ => "connection refused") (fun _ => false)
                eq_refl ltac:(simpl; lia) ltac:(intros i _; reflexivity))
      as (c' & Hrun & _ & Hlast & Hnone & _).
    destruct (Hnone ltac:(intros i _; reflexivity)) as [Hcount Hstate].
    exists c'. split; [exact Hrun|]. split; [exact Hcount|].
    split; [exact Hlast | exact Hstate].
  - destruct (failed_attempts_exhaust_retries c truncated
                "https://bureau.test/ABC123" "GET"
                (fun i => if Nat.eqb i 4
                          then "Expecting value: line 1 column 1 (char 0)"
                          else "connection refused")
                (fun i => Nat.eqb i 4)
                eq_refl ltac:(simpl; lia)
                ltac:(intros i _; simpl; destruct (Nat.eqb i 4); reflexivity))
      as (c' & Hrun & _ & Hlast & _ & Hsome).
    destruct (Hsome 4%nat ltac:(simpl; lia) eq_refl
                ltac:(intros i Hi; apply Nat.eqb_neq; lia))
      as [Hcount Hstate].
    exists c'. split; [exact Hrun|]. split; [exact Hcount|].
    split; [exact Hlast | exact Hstate].
Defined.

(** X5. A connector configured with zero (or negative) retries never
    touches the network and never contributes attributes to a fetch,
    whatever its source would answer. *)
Theorem zero_retries_source_is_silent `{Platform} (secure_code : string)
    (world : string -> Source) (name : string) (c : DataConnector) :
  retries (config c) <= 0 ->
  source_attributes secure_code world (name, c) = None
  /\ (forall src u m, snd (_make_request c src u m) = O).
Proof.
  intros Hz.
  assert (forall src u m,
            snd (_make_request c src u m) = O
            /\ forall d, fst (fst (_make_request c src u m)) <> Returned (Some d))
    as Hreq.
  { intros src u m. unfold _make_request.
    destruct (can_execute (call_time src) (circuit_breaker c)) as [ok cb].
    destruct ok; simpl; [|split; [done | discriminate]].
    rewrite seqZ_nil by lia. simpl. split; [done | discriminate]. }
  split; [|intros src u m; apply Hreq].
  unfold source_attributes. simpl.
  destruct (str_format _ _) as [u|]; [|done].
  destruct (Hreq (world name) u (method (config c))) as [_ Hno].
  destruct (fst (fst (_make_request c (world name) u (method (config c)))))
    as [msg|[d|]]; [done | by destruct (Hno d) | done].
Qed.

Lemma zero_retries_source_is_silent_witness :
  let c :=
    mkDataConnector
      (mkEndpointConfig "https://ledger.test/{secure_code}" "GET" "none" None 30 0)
      Breaker.default in
  @source_attributes Demo.platform "ABC123" Demo.world_mixed ("ledger", c) = None
  /\ (forall src u m, snd (_make_request c src u m) = O).
Proof.
  intros c.
  apply (@zero_retries_source_is_silent Demo.platform "ABC123" Demo.world_mixed
           "ledger" c).
  simpl. lia.
Defined.

Lemma _make_request_config c src u m :
  config (snd (fst (_make_request c src u m))) = config c.
Proof.
  unfold _make_request.
  destruct (can_execute (call_time src) (circuit_breaker c)) as [ok cb].
  destruct ok; simpl; [|done].
  by destruct (attempts _ _ _ _ _ _) as [[out cb1] made1].
Qed.

Lemma fetch_one_entry `{Platform} secure_code world secure_data entry :
  let entry' := snd (fst (fetch_one secure_code world secure_data entry)) in
  fst entry' = fst entry /\ config (snd entry') = config (snd entry).
Proof.
  unfold fetch_one, try_fetch. destruct entry as [name c].
  destruct (str_format _ _) as [u|]; [|done].
  pose proof (_make_request_config c (world name) u (method (config c))) as Hc.
  destruct (_make_request c (world name) u _) as [[[msg|data] c'] made];
    [done|].
  by destruct (dict_update secure_data data) as [sd [e|]].
Qed.

Lemma fetch_one_made `{Platform} secure_code world secure_data entry :
  (snd (fetch_one secure_code world secure_data entry)
   <= Z.to_nat (retries (config (snd entry))))%nat.
Proof.
  unfold fetch_one, try_fetch. destruct entry as [name c].
  destruct (str_format _ _) as [u|]; simpl; [|lia].
  pose proof (_make_request_made_le c (world name) u (method (config c)))
    as Hb.
  destruct (_make_request c (world name) u _) as [[[msg|data] c'] made];
    [done|].
  by destruct (dict_update secure_data data) as [sd [e|]].
Qed.

End RetryMore.

Section FetchMore.
Import Breaker Connectors.
Context `{Platform}.

Lemma fetch_loop_frame secure_code world connectors secure_data :
  let out := fetch_loop secure_code world connectors secure_data in
  map fst (snd (fst out)) = map fst connectors
  /\ map (fun e => config (snd e)) (snd (fst out))
     = map (fun e => config (snd e)) connectors
  /\ (snd out
      <= list_sum (map (fun e => Z.to_nat (retries (config (snd e)))) connectors))%nat.
Proof.
  revert secure_data.
  induction connectors as [|entry rest IH]; intros secure_data; simpl.
  - repeat split. lia.
  - pose proof (fetch_one_entry secure_code world secure_data entry) as [Hn Hc].
    pose proof (fetch_one_made secure_code world secure_data entry) as Hm.
    destruct (fetch_one secure_code world secure_data entry)
      as [[sd entry'] made].
    specialize (IH sd).
    destruct (fetch_loop secure_code world rest sd) as [[res rest'] made'].
    simpl in *. destruct IH as (IH1 & IH2 & IH3).
    repeat split; [by rewrite Hn, IH1 | by rewrite Hc, IH2 | lia].
Qed.

(** X6. A fetch returns the connector table with the same names in the same
    order and every configuration unchanged (only the breakers move), and
    it makes at most as many network attempts as the retries of all the
    connectors add up to. *)
Theorem fetch_keeps_connector_table (secure_code : string)
    (world : string -> Source) (connectors : list (string * DataConnector)) :
  let out := fetch_secure_data secure_code world connectors in
  map fst (snd (fst out)) = map fst connectors
  /\ map (fun e => config (snd e)) (snd (fst out))
     = map (fun e => config (snd e)) connectors
  /\ (snd out
      <= list_sum (map (fun e => Z.to_nat (retries (config (snd e)))) connectors))%nat.
Proof. apply fetch_loop_frame. Qed.

End FetchMore.

(** * Further properties of the rule engine *)

Section RulesMore.
Import Rules.

Lemma evaluate_fst rules context :
  fst (evaluate rules context) = fst (evaluate_loop rules context []).
Proof. unfold evaluate. by destruct (evaluate_loop rules context []). Qed.

Lemma evaluate_loop_verdict rules context :
  forall chain,
  let v := fst (evaluate_loop rules context chain) in
  (v = "YES" \/ v = "NO")
  /\ (v = "YES" ->
      exists r, In r rules /\ action r = "GRANT_YES"
                /\ rule_fires context r = true).
Proof.
  induction rules as [|r rest IH]; intros chain; simpl.
  - split; [by right | discriminate].
  - assert (forall ch,
              let v := fst (evaluate_loop rest context ch) in
              (v = "YES" \/ v = "NO")
              /\ (v = "YES" ->
                  exists r0, (r = r0 \/ In r0 rest) /\ action r0 = "GRANT_YES"
                             /\ rule_fires context r0 = true)) as IH'.
    { intros ch. destruct (IH ch) as [Hv Hy]. split; [exact Hv|].
      intros E. destruct (Hy E) as (r0 & ? & ? & ?). exists r0. auto. }
    unfold rule_fires at 1.
    destruct (jurisdiction_skips r context) eqn:Hj; [apply IH'|].
    destruct (matched (_evaluate_rule r context)) eqn:Hm; [|apply IH'].
    destruct (String.eqb_spec (action r) "GRANT_YES") as [Ha|_].
    + split; [by left|]. intros _. exists r.
      unfold rule_fires. rewrite Hj, Hm. auto.
    + destruct (String.eqb (action r) "GRANT_NO");
        [split; [by right | discriminate]|].
      destruct (String.eqb (action r) "NO_DECISION");
        [split; [by right | discriminate]|].
      apply IH'.
Qed.

(** X7. Whatever the rule list (validated or not) and the context,
    [evaluate] answers "YES" or "NO" and nothing else, and it answers "YES"
    only if the list holds a rule with action GRANT_YES that passes its
    jurisdiction filter and matches. *)
Theorem evaluate_verdict_sound (rules : list Rule) (context : dict) :
  (fst (evaluate rules context) = "YES" \/ fst (evaluate rules context) = "NO")
  /\ (fst (evaluate rules context) = "YES" ->
      exists r, In r rules /\ action r = "GRANT_YES"
                /\ rule_fires context r = true).
Proof. rewrite evaluate_fst. apply evaluate_loop_verdict. Qed.

(** X8. When every rule is filtered out by its jurisdiction (in particular
    when there is no rule at all), [evaluate] answers NO with the reasoning
    "No applicable rules found". *)
Theorem evaluate_no_applicable_rules (rules : list Rule) (context : dict) :
  Forall (fun r => jurisdiction_skips r context = true) rules ->
  evaluate rules context = ("NO", "No applicable rules found").
Proof.
  intros Hall. unfold evaluate.
  assert (forall chain, evaluate_loop rules context chain = ("NO", chain)) as E.
  { induction Hall as [|r rest Hr _ IH]; intros chain; simpl; [done|].
    by rewrite Hr. }
  by rewrite E.
Qed.

Lemma evaluate_no_applicable_rules_witness :
  evaluate [] Demo.context = ("NO", "No applicable rules found")
  /\ evaluate [Demo.us_rule] Demo.context = ("NO", "No applicable rules found").
Proof.
  split.
  - apply (evaluate_no_applicable_rules [] Demo.context). constructor.
  - apply (evaluate_no_applicable_rules [Demo.us_rule] Demo.context).
    repeat constructor.
Defined.

Lemma _evaluate_rule_matched rule context :
  matched (_evaluate_rule rule context)
  = match conditions rule !! "AND" with
    | Some conds => matched (_evaluate_and_conditions conds context)
    | None =>
        match conditions rule !! "OR" with
        | Some conds => matched (_evaluate_or_conditions conds context)
        | None => false
        end
    end.
Proof.
  unfold _evaluate_rule.
  destruct (conditions rule !! "AND") as [conds|].
  - by destruct (matched (_evaluate_and_conditions conds context)).
  - destruct (conditions rule !! "OR") as [conds|]; [|done].
    by destruct (matched (_evaluate_or_conditions conds context)).
Qed.

Lemma absent_fact_unmatched c (context : dict) :
  context !! fact c = None -> matched (_evaluate_condition c context) = false.
Proof. intros E. unfold _evaluate_condition. by rewrite E. Qed.

(** X9. Missing facts fail closed, with or without reason templates: a rule
    whose AND group names a fact that the context lacks does not match; a
    rule judged by its OR group does not match when the context lacks the
    facts of all its conditions; a rule with neither group never matches. *)
Theorem missing_facts_fail_closed (rule : Rule) (context : dict) :
  (forall conds c,
     conditions rule !! "AND" = Some conds -> In c conds ->
     context !! fact c = None ->
     matched (_evaluate_rule rule context) = false)
  /\ (forall conds,
        conditions rule !! "AND" = None ->
        conditions rule !! "OR" = Some conds ->
        Forall (fun c => context !! fact c = None) conds ->
        matched (_evaluate_rule rule context) = false)
  /\ (conditions rule !! "AND" = None -> conditions rule !! "OR" = None ->
      matched (_evaluate_rule rule context) = false).
Proof.
  rewrite _evaluate_rule_matched. repeat apply conj.
  - intros conds c -> Hin Hfact. apply not_true_is_false. intros Hm.
    apply and_matched_iff in Hm.
    rewrite List.Forall_forall in Hm. specialize (Hm c Hin).
    by rewrite (absent_fact_unmatched c context Hfact) in Hm.
  - intros conds -> -> Hall. apply not_true_is_false. intros Hm.
    apply or_matched_iff in Hm. apply List.Exists_exists in Hm as (c & Hin & Hc).
    rewrite List.Forall_forall in Hall.
    by rewrite (absent_fact_unmatched c context (Hall c Hin)) in Hc.
  - by intros -> ->.
Qed.

Lemma missing_facts_fail_closed_witness :
  matched (_evaluate_rule Demo.adult_rule Demo.bare_context) = false
  /\ matched (_evaluate_rule Demo.tier_rule Demo.bare_context) = false.
Proof.
  destruct (missing_facts_fail_closed Demo.adult_rule Demo.bare_context)
    as (Hand & _ & _).
  destruct (missing_facts_fail_closed Demo.tier_rule Demo.bare_context)
    as (_ & Hor & _).
  split.
  - apply (Hand [mkCondition "age" "GREATER_THAN" (VInt 18)]
             (mkCondition "age" "GREATER_THAN" (VInt 18)));
      [reflexivity | by left | reflexivity].
  - apply (Hor [mkCondition "verification_tier" "EQUALS" (VStr "gold");
                mkCondition "eligibility_score" "GREATER_THAN" (VInt 800)]);
      [reflexivity | reflexivity | repeat constructor].
Defined.

(** X10. An empty AND group is vacuously satisfied: a first rule with
    [AND: []], no jurisdiction filter and action GRANT_YES makes [evaluate]
    answer YES on every context, the empty one included, whatever rules
    follow.  An empty OR group is never satisfied. *)
Theorem empty_groups (rule : Rule) (rest : list Rule) (context : dict) :
  (conditions rule !! "AND" = Some [] -> jurisdiction rule = None ->
   action rule = "GRANT_YES" ->
   fst (evaluate (rule :: rest) context) = "YES")
  /\ (conditions rule !! "AND" = None -> conditions rule !! "OR" = Some [] ->
      matched (_evaluate_rule rule context) = false).
Proof.
  split.
  - intros Hand Hj Ha. rewrite evaluate_fst. simpl.
    unfold jurisdiction_skips. rewrite Hj.
    rewrite _evaluate_rule_matched, Hand, Ha. reflexivity.
  - intros Hand Hor. by rewrite _evaluate_rule_matched, Hand, Hor.
Qed.

Lemma empty_groups_witness :
  let grant_all :=
    mkRule "open_door" (<["AND" := []]> ∅) "GRANT_YES" None None None in
  let never :=
    mkRule "closed_door" (<["OR" := []]> ∅) "GRANT_YES" None None None in
  fst (evaluate (grant_all :: Demo.rules_data) ∅) = "YES"
  /\ matched (_evaluate_rule never Demo.context) = false.
Proof.
  intros grant_all never.
  destruct (empty_groups grant_all Demo.rules_data ∅) as [Hyes _].
  destruct (empty_groups never [] Demo.context) as [_ Hno].
  split; [apply Hyes; reflexivity | apply Hno; reflexivity].
Defined.

End RulesMore.

Section ConditionsMore.
Import Rules.

(** X11. On a fact and a comparison value that are both integers, the four
    operators that the evaluator and the validator agree on mean what they
    say: GREATER_THAN matches exactly when the fact exceeds the value,
    LESS_THAN when it is below, EQUALS when they are equal and NOT_EQUALS
    when they are not. *)
Theorem integer_comparisons (c : RuleCondition) (context : dict) (a v : Z) :
  context !! fact c = Some (VInt a) -> value c = VInt v ->
  (operator c = "GREATER_THAN" ->
   (matched (_evaluate_condition c context) = true <-> v < a))
  /\ (operator c = "LESS_THAN" ->
      (matched (_evaluate_condition c context) = true <-> a < v))
  /\ (operator c = "EQUALS" ->
      (matched (_evaluate_condition c context) = true <-> a = v))
  /\ (operator c = "NOT_EQUALS" ->
      (matched (_evaluate_condition c context) = true <-> a <> v)).
Proof.
  intros Hfact Hval. unfold _evaluate_condition. rewrite Hfact, Hval.
  repeat apply conj; intros ->; simpl.
  - apply Z.ltb_lt.
  - apply Z.ltb_lt.
  - apply Z.eqb_eq.
  - rewrite negb_true_iff. apply Z.eqb_neq.
Qed.

Lemma integer_comparisons_witness :
  matched (_evaluate_condition (mkCondition "age" "GREATER_THAN" (VInt 18))
             Demo.context) = true
  /\ matched (_evaluate_condition (mkCondition "age" "LESS_THAN" (VInt 18))
                Demo.context) = false.
Proof.
  destruct (integer_comparisons (mkCondition "age" "GREATER_THAN" (VInt 18))
              Demo.context 20 18 eq_refl eq_refl) as (Hgt & _).
  destruct (integer_comparisons (mkCondition "age" "LESS_THAN" (VInt 18))
              Demo.context 20 18 eq_refl eq_refl) as (_ & Hlt & _).
  split.
  - apply (Hgt eq_refl). lia.
  - apply not_true_is_false. intros Hm. apply (Hlt eq_refl) in Hm. lia.
Defined.

Lemma py_ord_other_kind op a b :
  same_kind a b = false -> exists msg, py_ord op a b = Exc msg.
Proof.
  destruct a, b; simpl; try discriminate; intros _; eexists; reflexivity.
Qed.

(** X12. An ordering comparison between values of different kinds (a string
    against a number, anything against None, a list against a scalar) never
    matches: the error is absorbed into the condition's reason and
    evaluation goes on. *)
Theorem ordering_needs_same_kind (c : RuleCondition) (context : dict)
    (actual : pyval) :
  context !! fact c = Some actual ->
  same_kind actual (value c) = false ->
  operator c = "GREATER_THAN" \/ operator c = "LESS_THAN" ->
  exists msg,
    _evaluate_condition c context
    = {| matched := false; reason := "Error evaluating condition: " +:+ msg |}.
Proof.
  intros Hfact Hkind Hop. unfold _evaluate_condition. rewrite Hfact.
  destruct Hop as [-> | ->]; simpl.
  - destruct (py_ord_other_kind OpGt _ _ Hkind) as [msg ->]. by exists msg.
  - destruct (py_ord_other_kind OpLt _ _ Hkind) as [msg ->]. by exists msg.
Qed.

Lemma ordering_needs_same_kind_witness :
  _evaluate_condition (mkCondition "verification_tier" "GREATER_THAN" (VInt 1))
    Demo.context
  = {| matched := false;
       reason := "Error evaluating condition: '>' not supported between instances of 'str' and 'int'" |}.
Proof.
  destruct (ordering_needs_same_kind
              (mkCondition "verification_tier" "GREATER_THAN" (VInt 1))
              Demo.context (VStr "silver") eq_refl eq_refl (or_introl eq_refl))
    as [msg E].
  rewrite E. vm_compute in E. injection E as <-. reflexivity.
Defined.

Lemma evaluate_loop_fst_chain rules context :
  forall ch1 ch2,
  fst (evaluate_loop rules context ch1) = fst (evaluate_loop rules context ch2).
Proof.
  induction rules as [|r rest IH]; intros ch1 ch2; simpl; [done|].
  destruct (jurisdiction_skips r context); [apply IH|].
  destruct (matched (_evaluate_rule r context)); [|apply IH].
  destruct (String.eqb (action r) "GRANT_YES"); [done|].
  destruct (String.eqb (action r) "GRANT_NO"); [done|].
  destruct (String.eqb (action r) "NO_DECISION"); [done|].
  apply IH.
Qed.

(** X13. Leaving out the rules whose action is not one of the three valid
    ones, as [_load_rules] does, never changes the verdict: a matching rule
    with an unknown action only adds to the reasoning and evaluation moves
    on to the next rule. *)
Theorem loading_keeps_verdict (rules_data : list Rule) (context : dict) :
  fst (evaluate (_load_rules rules_data) context)
  = fst (evaluate rules_data context).
Proof.
  rewrite !evaluate_fst. generalize (@nil string) as chain.
  induction rules_data as [|r rest IH]; intros chain; [done|].
  unfold _load_rules in *. simpl.
  destruct (validate_action (action r)) eqn:Hv; simpl.
  - destruct (jurisdiction_skips r context); [apply IH|].
    destruct (matched (_evaluate_rule r context)); [|apply IH].
    destruct (String.eqb (action r) "GRANT_YES"); [done|].
    destruct (String.eqb (action r) "GRANT_NO"); [done|].
    destruct (String.eqb (action r) "NO_DECISION"); [done|].
    apply IH.
  - unfold validate_action, valid_actions in Hv. simpl in Hv.
    destruct (String.eqb (action r) "GRANT_YES"); [discriminate|].
    destruct (String.eqb (action r) "GRANT_NO"); [discriminate|].
    destruct (String.eqb (action r) "NO_DECISION"); [discriminate|].
    destruct (jurisdiction_skips r context); [apply IH|].
    destruct (matched (_evaluate_rule r context));
      rewrite IH; apply evaluate_loop_fst_chain.
Qed.

End ConditionsMore.

(** * Further properties of the request validators *)

Section ModelsMore.
Import Models.
Context `{Platform}.

Lemma upper_ascii_idem c : upper_ascii (upper_ascii c) = upper_ascii c.
Proof. by destruct c as [[] [] [] [] [] [] [] []]. Qed.

Lemma upper_ascii_not_lower c : is_lower_letter (upper_ascii c) = false.
Proof. by destruct c as [[] [] [] [] [] [] [] []]. Qed.

Lemma upper_ascii_is_ascii c :
  is_ascii_char (upper_ascii c) = is_ascii_char c.
Proof. by destruct c as [[] [] [] [] [] [] [] []]. Qed.

Lemma ascii_upper_idem s : ascii_upper (ascii_upper s) = ascii_upper s.
Proof. induction s as [|c s IH]; simpl; [done|]. by rewrite upper_ascii_idem, IH. Qed.

Lemma ascii_upper_length s : String.length (ascii_upper s) = String.length s.
Proof. induction s as [|c s IH]; simpl; [done|]. by rewrite IH. Qed.

Lemma ascii_upper_no_lower s : has_lower_letter (ascii_upper s) = false.
Proof.
  induction s as [|c s IH]; simpl; [done|].
  by rewrite upper_ascii_not_lower, IH.
Qed.

Lemma ascii_upper_is_ascii s : is_ascii (ascii_upper s) = is_ascii s.
Proof.
  induction s as [|c s IH]; simpl; [done|].
  by rewrite upper_ascii_is_ascii, IH.
Qed.

Lemma validate_secure_code_val v w :
  validate_secure_code v = Val w <-> (3 <= len v)%nat /\ w = upper v.
Proof.
  unfold validate_secure_code.
  destruct (Z.ltb_spec (Z.of_nat (len v)) 3) as [Hlt|Hge].
  - rewrite orb_true_r. split; [discriminate | lia].
  - rewrite orb_false_r. destruct v as [|c v].
    + rewrite (len_on_ascii "" eq_refl) in Hge. simpl in Hge. lia.
    + simpl. split; [intros [= <-]; split; [lia | done] | by intros [_ ->]].
Qed.

(** X14. [validate_secure_code] accepts exactly the codes of at least three
    characters, [len] counting as the library does, and returns what
    [upper] makes of the code.  For a code of ASCII characters the result is
    the code with a-z replaced by A-Z: it has the same length and no
    lower-case letter, and validating it again returns it unchanged. *)
Theorem secure_code_normalised (v w : string) :
  (validate_secure_code v = Val w <-> (3 <= len v)%nat /\ w = upper v)
  /\ (is_ascii v = true ->
      validate_secure_code v = Val w ->
      w = ascii_upper v
      /\ String.length w = String.length v
      /\ has_lower_letter w = false
      /\ validate_secure_code w = Val w).
Proof.
  split; [apply validate_secure_code_val|].
  intros Ha Hv. apply validate_secure_code_val in Hv as [Hlen ->].
  rewrite (upper_on_ascii v Ha).
  split; [done|]. split; [apply ascii_upper_length|].
  split; [apply ascii_upper_no_lower|].
  assert (is_ascii (ascii_upper v) = true) as Hu
    by (by rewrite ascii_upper_is_ascii).
  apply validate_secure_code_val.
  rewrite (upper_on_ascii _ Hu), (len_on_ascii _ Hu), ascii_upper_idem,
    ascii_upper_length, <- (len_on_ascii v Ha).
  done.
Qed.

Lemma upper_valid_jurisdiction v : In v valid_jurisdictions -> upper v = v.
Proof.
  unfold valid_jurisdictions. simpl.
  intros [<-|[<-|[<-|[<-|[<-|[]]]]]]; by rewrite upper_on_ascii.
Qed.

(** X15. [validate_jurisdiction] accepts exactly the five codes UK, US, EU,
    CA and AU as written and returns them unchanged: membership is tested
    before the value is upper-cased, so a lower-case spelling such as "uk"
    is rejected rather than normalised. *)
Theorem jurisdiction_accepted_verbatim (v w : string) :
  validate_jurisdiction v = Val w <-> In v valid_jurisdictions /\ w = v.
Proof.
  unfold validate_jurisdiction.
  destruct (existsb (String.eqb v) valid_jurisdictions) eqn:E; simpl.
  - apply List.existsb_exists in E as (x & Hin & Hx).
    apply String.eqb_eq in Hx. subst x.
    rewrite (upper_valid_jurisdiction v Hin).
    split; [by intros [= <-] | by intros [_ ->]].
  - split; [discriminate|]. intros [Hin _].
    assert (existsb (String.eqb v) valid_jurisdictions = true) as E'
      by (apply List.existsb_exists; exists v; split;
          [done | apply String.eqb_refl]).
    congruence.
Qed.

Example jurisdiction_lower_case_rejected :
  validate_jurisdiction "uk"
  = Exc "Jurisdiction must be one of: ['UK', 'US', 'EU', 'CA', 'AU']".
Proof. reflexivity. Qed.

End ModelsMore.

Lemma secure_code_normalised_witness :
  @Models.validate_secure_code Demo.platform "abc123" = Val "ABC123"
  /\ String.length "ABC123" = String.length "abc123"
  /\ @Models.validate_secure_code Demo.platform "ABC123" = Val "ABC123".
Proof.
  destruct (@secure_code_normalised Demo.platform "abc123" "ABC123")
    as [_ Hn].
  destruct (Hn eq_refl eq_refl) as (_ & Hlen & _ & Hidem).
  split; [reflexivity|]. split; [exact Hlen | exact Hidem].
Defined.

(** * Further properties of the credentials *)

Section TokensMore.
Import Security Engine Endpoints.
Context `{Platform}.

Lemma verify_token_payload s now tok p :
  verify_token s now tok = Payload p -> exists alg sig, tok = JWS alg p sig.
Proof.
  unfold verify_token, jwt_decode. destruct tok as [str|alg claims sig];
    [discriminate|].
  destruct (negb (existsb _ _)); [discriminate|].
  destruct (negb (String.eqb _ _)); [discriminate|].
  unfold validate_claims.
  destruct (validate_iat claims now) as [[]|]; try discriminate.
  destruct (validate_nbf claims now) as [[]|]; try discriminate.
  destruct (validate_exp claims now) as [[]|]; try discriminate.
  destruct (validate_aud claims) as [[]|]; try discriminate.
  intros [= <-]. eauto.
Qed.



(** X17. Only tokens of the verifiable kind can pass the request-integrity
    check: a token from [generate_minimal_token] (no [secure_code] claim) or
    from [generate_token] (no [request_hash] claim) is never answered
    verified=true, whatever parameters are supplied and whenever it is
    checked. *)
Theorem other_tokens_never_verified (s : Settings) (now : Z) (sc j : string)
    (cid : option string) :
  (forall t0 verdict vid rh a b c d,
     verify_original_request s now
       (generate_minimal_token s t0 verdict vid rh) sc j cid
     <> Verified a b c d)
  /\ (forall t0 fresh verdict sc0 j0 sd reasoning a b c d,
        verify_original_request s now
          (generate_token s t0 fresh verdict sc0 j0 sd reasoning) sc j cid
        <> Verified a b c d).
Proof.
  split.
  - intros t0 verdict vid rh a b c d. unfold verify_original_request.
    destruct (verify_token s now _) as [p|msg|] eqn:Hv; [|discriminate..].
    apply verify_token_payload in Hv as (alg & sig & Htok).
    unfold generate_minimal_token, jwt_encode in Htok.
    injection Htok as _ <- _.
    match goal with
    | |- context [py_eq (VStr sc) (claim ?P "secure_code")] =>
        assert (py_eq (VStr sc) (claim P "secure_code") = false) as ->
          by (vm_compute; reflexivity)
    end.
    cbn [negb orb]. discriminate.
  - intros t0 fresh verdict sc0 j0 sd reasoning a b c d.
    unfold verify_original_request.
    destruct (verify_token s now _) as [p|msg|] eqn:Hv; [|discriminate..].
    apply verify_token_payload in Hv as (alg & sig & Htok).
    unfold generate_token, jwt_encode in Htok.
    injection Htok as _ <- _.
    match goal with
    | |- context [py_eq (VStr ?h) (claim ?P "request_hash")] =>
        assert (py_eq (VStr h) (claim P "request_hash") = false) as ->
          by (vm_compute; reflexivity)
    end.
    cbn [negb]. rewrite orb_true_r. discriminate.
Qed.


(** X19. Introspection and the integrity check refuse the same tokens: one
    answers 401 exactly when the other does, whatever request parameters
    are supplied.  Mismatching parameters never produce a 401, only
    verified=false. *)
Theorem introspection_agrees_with_integrity (s : Settings) (now : Z)
    (token : jwt) (sc j : string) (cid : option string) :
  verify_qr_token s now token = QR401
  <-> verify_original_request s now token sc j cid = HTTP401.
Proof.
  unfold verify_qr_token, verify_original_request.
  destruct (verify_token s now token) as [p|msg|]; [|done..].
  split; [discriminate|]. by case_match.
Qed.


End TokensMore.




(** * Further properties of the orchestrator *)

Section EngineMore.
Import Security Engine Endpoints.
Context `{Platform}.

Lemma lower_truthy s : str_truthy (lower s) = str_truthy s.
Proof.
  destruct s as [|c s]; [by rewrite (lower_on_ascii "" eq_refl)|].
  destruct (lower (String c s)) eqn:E; [|done].
  by apply lower_nonempty in E.
Qed.

Lemma lower_empty s : lower s = "" -> s = "".
Proof. apply lower_nonempty. Qed.

Lemma answer_accepted_normal field a a' (secure_data : dict) :
  lower (strip a) = lower (strip a') ->
  answer_accepted field a secure_data = answer_accepted field a' secure_data.
Proof.
  intros Hn. unfold answer_accepted.
  rewrite <- (lower_truthy (strip a)), <- (lower_truthy (strip a')), Hn.
  done.
Qed.

Lemma assemble_context_fields request request' (secure_data : dict) :
  secure_code request' = secure_code request ->
  jurisdiction request' = jurisdiction request ->
  client_id request' = client_id request ->
  assemble_context request' secure_data = assemble_context request secure_data.
Proof. intros Hs Hj Hc. unfold assemble_context. by rewrite Hs, Hj, Hc. Qed.

(** X21. The [/verify] endpoint never hands out a credential: for every
    engine, environment and request it answers either the short-circuit
    response (verdict NO, empty token, empty QR code), when the answers
    were rejected at the gate, or HTTP 500 carrying the [NameError] of the
    unimported issuing function.  No response has verdict YES or a
    non-empty token. *)
Theorem verify_eligibility_never_issues (e : StatelessEngine) (env : Env)
    (request : VerificationRequest) :
  verify_eligibility e env request
  = if answers_rejected request (_fetch_secure_data e env (secure_code request))
    then OK200 {| verdict := "NO"; jwt_token := NotJWT ""; qr_code := "" |}
    else HTTP500 "Verification failed: name 'generate_verifiable_token' is not defined".
Proof.
  unfold verify_eligibility, process_request.
  destruct (answers_rejected request _); [done|].
  by destruct (_evaluate_rules e _).
Qed.

(** X22. The answer check looks at the first provided pair only and only
    through its trimmed, lower-cased form: two requests with the same
    identity fields whose first answers name the same field and agree once
    trimmed and lower-cased are processed identically, whatever further
    answers either of them carries. *)
Theorem answers_count_up_to_normal_form (e : StatelessEngine) (env : Env)
    (request request' : VerificationRequest) (field a a' : string)
    (rest rest' : list (string * string)) :
  secure_code request' = secure_code request ->
  jurisdiction request' = jurisdiction request ->
  client_id request' = client_id request ->
  security_answers request = Some ((field, a) :: rest) ->
  security_answers request' = Some ((field, a') :: rest') ->
  lower (strip a) = lower (strip a') ->
  process_request e env request' = process_request e env request.
Proof.
  intros Hs Hj Hc Ha Ha' Hn. unfold process_request. rewrite Hs.
  set (secure_data := _fetch_secure_data e env (secure_code request)).
  rewrite (assemble_context_fields request request' secure_data Hs Hj Hc).
  assert (answers_rejected request' secure_data
          = answers_rejected request secure_data) as ->.
  { unfold answers_rejected. rewrite Ha, Ha'.
    change (default [] (Some ?l)) with l.
    by rewrite !_validate_security_answers_first,
         (answer_accepted_normal field a a' secure_data Hn). }
  destruct (answers_rejected request secure_data); [done|].
  by destruct (_evaluate_rules e _).
Qed.

(** X23. When attributes were fetched but the answered field is missing
    among them, or its stored value is blank or not a string, no answer can
    pass: the request is answered NO with an empty token and an empty QR
    code without any rule being evaluated. *)
Theorem blank_stored_answer_rejects (e : StatelessEngine) (env : Env)
    (request : VerificationRequest) (field answer : string)
    (rest : list (string * string)) :
  let secure_data := _fetch_secure_data e env (secure_code request) in
  dict_truthy secure_data = true ->
  security_answers request = Some ((field, answer) :: rest) ->
  stored_answer secure_data field = Some "" \/ stored_answer secure_data field = None ->
  process_request e env request
  = (Val {| verdict := "NO"; jwt_token := NotJWT ""; qr_code := "" |}, O).
Proof.
  intros secure_data Hd Ha Hstored. unfold process_request. cbv zeta.
  subst secure_data.
  set (secure_data := _fetch_secure_data e env (secure_code request)) in *.
  rewrite (answers_rejected_first _ _ _ _ _ Hd Ha).
  destruct (answer_accepted field answer secure_data) eqn:Hacc; [|done].
  apply answer_accepted_spec in Hacc as (_ & Hs & Hm).
  destruct Hstored as [E | E]; rewrite E in Hm; [|discriminate].
  injection Hm as Hm. symmetry in Hm. by apply lower_empty in Hm.
Qed.

End EngineMore.

Section ContextMore.
Import Engine.

(** X24. Apart from the three identity keys, the assembled context is the
    fetched attribute map: every other key holds exactly what was fetched
    for it and is absent when nothing was. *)
Theorem context_carries_fetched_attributes (request : VerificationRequest)
    (secure_data : dict) (k : string) :
  k <> "secure_code" -> k <> "jurisdiction" -> k <> "client_id" ->
  assemble_context request secure_data !! k = secure_data !! k.
Proof.
  intros H1 H2 H3. rewrite assemble_context_lookup.
  destruct (secure_data !! k); [done|].
  rewrite !lookup_insert_ne by done. apply lookup_empty.
Qed.

Lemma context_carries_fetched_attributes_witness :
  Demo.context !! "age" = Some (VInt 20)
  /\ Demo.context !! "shoe_size" = None.
Proof.
  unfold Demo.context. split.
  - rewrite (context_carries_fetched_attributes Demo.request
               (Demo.ledger_body ∪ Demo.registry_body) "age");
      [reflexivity | discriminate | discriminate | discriminate].
  - rewrite (context_carries_fetched_attributes Demo.request
               (Demo.ledger_body ∪ Demo.registry_body) "shoe_size");
      [reflexivity | discriminate | discriminate | discriminate].
Defined.

End ContextMore.

Lemma answers_count_up_to_normal_form_witness :
  let e := Engine.mkStatelessEngine Security.default_settings Demo.connectors
             (Rules._load_rules Demo.rules_data) in
  let env := Engine.mkEnv Demo.world_mixed "6f1c2b9e" 1000 in
  let plain :=
    Engine.mkVerificationRequest "ABC123" "UK" None
      (Some [("first_pet_name", "fluffy")]) in
  let noisy :=
    Engine.mkVerificationRequest "ABC123" "UK" None
      (Some [("first_pet_name", "  FLUFFY "); ("shoe_size", "9")]) in
  @Engine.process_request Demo.platform e env noisy
  = @Engine.process_request Demo.platform e env plain.
Proof.
  intros e env plain noisy.
  apply (@answers_count_up_to_normal_form Demo.platform e env plain noisy
           "first_pet_name" "fluffy" "  FLUFFY " [] [("shoe_size", "9")]);
    reflexivity.
Defined.

Lemma blank_stored_answer_rejects_witness :
  let e := Engine.mkStatelessEngine Security.default_settings Demo.connectors
             (Rules._load_rules Demo.rules_data) in
  let env := Engine.mkEnv Demo.world_mixed "6f1c2b9e" 1000 in
  let request :=
    Engine.mkVerificationRequest "ABC123" "UK" None
      (Some [("birth_town", "Leeds")]) in
  @Engine.process_request Demo.platform e env request
  = (Val {| Engine.verdict := "NO"; Engine.jwt_token := NotJWT "";
            Engine.qr_code := "" |}, O).
Proof.
  intros e env request.
  apply (@blank_stored_answer_rejects Demo.platform e env request
           "birth_town" "Leeds" []).
  - reflexivity.
  - reflexivity.
  - left. reflexivity.
Defined.

Lemma evaluate_verdict_sound_witness :
  fst (Rules.evaluate (Rules._load_rules Demo.rules_data) Demo.context) = "YES"
  /\ exists r, In r (Rules._load_rules Demo.rules_data)
               /\ Rules.action r = "GRANT_YES"
               /\ Rules.rule_fires Demo.context r = true.
Proof.
  destruct (evaluate_verdict_sound (Rules._load_rules Demo.rules_data)
              Demo.context) as [_ Hyes].
  split; [reflexivity|]. apply Hyes. reflexivity.
Defined.

Lemma jurisdiction_accepted_verbatim_witness :
  @Models.validate_jurisdiction Demo.platform "AU" = Val "AU".
Proof.
  apply (@jurisdiction_accepted_verbatim Demo.platform "AU" "AU").
  split; [vm_compute; tauto | reflexivity].
Defined.

(** * Further properties of the connectors *)

Section ConnectorMore.
Import Breaker Connectors.

(** X25. A request carries an authentication header only for the auth types
    [api_key] and [bearer] with a non-empty token, and then exactly one.
    The type [oauth], which the configuration validator accepts, sends no
    credentials at all, like [none]. *)
Theorem auth_header_only_for_key_and_bearer (cfg : EndpointConfig) :
  (auth_headers cfg <> [] <->
   (auth_type cfg = "api_key" \/ auth_type cfg = "bearer")
   /\ exists tok, auth_token cfg = Some tok /\ tok <> "")
  /\ (length (auth_headers cfg) <= 1)%nat
  /\ (auth_type cfg = "oauth" ->
      Engine.validate_endpoint
        (mkEndpointConfig (url cfg) "GET" (auth_type cfg) (auth_token cfg)
           (timeout cfg) (retries cfg)) = true
      /\ auth_headers cfg = []).
Proof.
  unfold auth_headers. split; [|split].
  - destruct (auth_token cfg) as [tok|].
    2: { split; [done | intros (_ & t & Ht & _); discriminate]. }
    destruct (String.eqb_spec (auth_type cfg) "api_key") as [Ea|Ea];
      destruct (String.eqb_spec (auth_type cfg) "bearer") as [Eb|Eb];
      destruct tok as [|ch tok]; simpl; split; try done.
    all: try (intros _; split;
              [auto | eexists; split; [reflexivity | discriminate]]).
    all: intros ([?|?] & t & [= <-] & Hne); congruence.
  - destruct (auth_token cfg) as [tok|]; [|simpl; lia].
    repeat case_match; simpl; lia.
  - intros ->. split; [reflexivity|].
    by destruct (auth_token cfg).
Qed.

Lemma auth_header_only_for_key_and_bearer_witness :
  auth_headers
    (mkEndpointConfig "https://bureau.test" "GET" "oauth" (Some "t0k3n") 30 3) = []
  /\ auth_headers
       (mkEndpointConfig "https://bureau.test" "GET" "bearer" (Some "t0k3n") 30 3)
     <> [].
Proof.
  destruct (auth_header_only_for_key_and_bearer
              (mkEndpointConfig "https://bureau.test" "GET" "oauth"
                 (Some "t0k3n") 30 3)) as (_ & _ & Hoauth).
  destruct (auth_header_only_for_key_and_bearer
              (mkEndpointConfig "https://bureau.test" "GET" "bearer"
                 (Some "t0k3n") 30 3)) as (Hiff & _ & _).
  split; [apply Hoauth; reflexivity|].
  apply Hiff. split; [by right|]. exists "t0k3n". split; [reflexivity | discriminate].
Defined.

Lemma record_failure_timeout now cb :
  Breaker.timeout (record_failure now cb) = Breaker.timeout cb.
Proof. unfold record_failure; simpl. by case_match. Qed.

Lemma attempts_breaker_timeout cfg req src range :
  forall cb made,
  Breaker.timeout (snd (fst (attempts cfg req src range cb made)))
  = Breaker.timeout cb.
Proof.
  induction range as [|a range IH]; intros cb made; simpl; [done|].
  destruct (respond src req (Z.to_nat a)) as [t [b|msg|msg]]; [done| |].
  - destruct (a =? retries cfg - 1); simpl.
    + apply record_failure_timeout.
    + rewrite IH. apply record_failure_timeout.
  - destruct (a =? retries cfg - 1); simpl.
    + by rewrite record_failure_timeout.
    + rewrite IH. by rewrite record_failure_timeout.
Qed.

(** X26. Failures carry over from one call to the next.  If a connector
    whose breaker is CLOSED makes a call in which every attempt fails and
    the failure count thereby reaches the threshold, then any further call
    that starts no later than the timeout after the last failure is refused
    with "Circuit breaker is open", without a network attempt and without
    changing the connector. *)
Theorem breaker_trips_across_calls (c : DataConnector) (src src' : Source)
    (u m u' m' : string) (msgs : nat -> string) :
  let req := {| req_method := m; req_url := u;
                req_headers := auth_headers (config c) |} in
  let n := retries (config c) in
  let cb := circuit_breaker c in
  let c1 := snd (fst (_make_request c src u m)) in
  state cb = "CLOSED" ->
  1 <= n ->
  failure_threshold cb <= failure_count cb + n ->
  (forall i, (i < Z.to_nat n)%nat -> snd (respond src req i) = HttpError (msgs i)) ->
  call_time src' - fst (respond src req (Z.to_nat (n - 1)))
  <= Breaker.timeout cb * 1000000 ->
  state (circuit_breaker c1) = "OPEN"
  /\ _make_request c1 src' u' m' = (Raised "Circuit breaker is open", c1, O).
Proof.
  intros req n cb c1 Hclosed Hn Hth Herr Hsoon.
  assert (can_execute (call_time src) cb = (true, cb)) as Hce
    by (unfold can_execute; by rewrite Hclosed).
  destruct (attempts_all_errors (config c) req src msgs (Z.to_nat n - 1)
              0 cb O ltac:(lia) ltac:(fold n; lia) Herr)
    as (cb' & Hrun & Hth' & Hcount & Hlast & Hstate).
  replace (Z.of_nat (S (Z.to_nat n - 1))) with n in * by lia.
  assert (Breaker.timeout cb' = Breaker.timeout cb) as Htmo.
  { pose proof (attempts_breaker_timeout (config c) req src (seqZ 0 n) cb O)
      as Ht.
    by rewrite Hrun in Ht. }
  assert (c1 = {| config := config c; circuit_breaker := cb' |}) as Hc1.
  { unfold c1, _make_request. fold cb. rewrite Hce. simpl.
    fold req. fold n. by rewrite Hrun. }
  destruct (Z.leb_spec (failure_threshold cb) (failure_count cb + n)) as [_|?];
    [|lia].
  rewrite Hc1. simpl. split; [exact Hstate|].
  unfold _make_request. simpl.
  unfold can_execute, timeout_elapsed. rewrite Hstate, Hlast, Htmo. simpl.
  destruct (_ <? _) eqn:E; [|done].
  apply Z.ltb_lt in E. unfold n in *. lia.
Qed.

Lemma breaker_trips_across_calls_witness :
  let c :=
    mkDataConnector
      (mkEndpointConfig "https://bureau.test/{secure_code}" "GET" "none" None 30 5)
      Breaker.default in
  let c1 :=
    snd (fst (_make_request c (Demo.world_down "bureau")
                "https://bureau.test/ABC123" "GET")) in
  state (circuit_breaker c1) = "OPEN"
  /\ _make_request c1 (Demo.world_mixed "registry")
       "https://bureau.test/ABC123" "GET"
     = (Raised "Circuit breaker is open", c1, O).
Proof.
  intros c c1.
  apply (breaker_trips_across_calls c (Demo.world_down "bureau")
           (Demo.world_mixed "registry") "https://bureau.test/ABC123" "GET"
           "https://bureau.test/ABC123" "GET" (fun _ => "connection refused")).
  - reflexivity.
  - simpl. lia.
  - simpl. lia.
  - intros i _. reflexivity.
  - simpl. lia.
Defined.

End ConnectorMore.

Section MembershipMore.
Import Rules.

(** X27. The membership operators are two-sided only on lists.  With a list
    as comparison value, IN matches exactly when some element equals the
    fact and NOT_IN exactly when none does; with any other comparison value
    neither IN nor NOT_IN matches. *)
Theorem membership_operators (c : RuleCondition) (context : dict)
    (actual : pyval) :
  context !! fact c = Some actual ->
  (forall l, value c = VList l ->
     (operator c = "IN" ->
      matched (_evaluate_condition c context) = existsb (py_eq actual) l)
     /\ (operator c = "NOT_IN" ->
         matched (_evaluate_condition c context)
         = negb (existsb (py_eq actual) l)))
  /\ (is_list (value c) = false ->
      operator c = "IN" \/ operator c = "NOT_IN" ->
      matched (_evaluate_condition c context) = false).
Proof.
  intros Hfact. unfold _evaluate_condition. rewrite Hfact. split.
  - intros l Hl. rewrite Hl. split; intros ->; reflexivity.
  - intros Hnl [-> | ->]; simpl; by rewrite Hnl.
Qed.

Lemma membership_operators_witness :
  matched (_evaluate_condition
             (mkCondition "verification_tier" "IN"
                (VList [VStr "silver"; VStr "bronze"])) Demo.context) = true
  /\ matched (_evaluate_condition
                (mkCondition "verification_tier" "NOT_IN" (VStr "gold"))
                Demo.context) = false.
Proof.
  destruct (membership_operators
              (mkCondition "verification_tier" "IN"
                 (VList [VStr "silver"; VStr "bronze"]))
              Demo.context (VStr "silver") eq_refl) as [Hin _].
  destruct (membership_operators
              (mkCondition "verification_tier" "NOT_IN" (VStr "gold"))
              Demo.context (VStr "silver") eq_refl) as [_ Hno].
  split.
  - destruct (Hin [VStr "silver"; VStr "bronze"] eq_refl) as [H1 _].
    rewrite (H1 eq_refl). reflexivity.
  - apply Hno; [reflexivity | by right].
Defined.

End MembershipMore.
